(** * Lazy guild member lists (litecord/pubsub/lazy_guild.py)

    A shallow embedding of [GuildMemberList] and [LazyGuildDispatcher]:
    Python objects become records, dictionaries used as maps become
    [gmap]s, the insertion-ordered subscription dictionary becomes an
    association list, and every method becomes a function in a small
    state-and-exception monad.  A raised exception keeps the mutations
    performed before it, exactly as in Python. *)

From Stdlib Require Import ZArith DecimalString.
From stdpp Require Import gmap strings list fin_maps sorting.

Local Open Scope string_scope.
Local Open Scope Z_scope.
Local Open Scope list_scope.

(** ** Exceptions and results *)

Inductive exn :=
  | KeyError
  | AttributeError
  | TypeError
  | ValueError
  | RuntimeError
  | OutOfFuel
  | CollaboratorError (who : string).

Inductive result (A : Type) :=
  | Ok (a : A)
  | Err (e : exn).
Arguments Ok {A} a.
Arguments Err {A} e.

Definition result_bind {A B} (r : result A) (k : A → result B) : result B :=
  match r with
  | Ok a => k a
  | Err e => Err e
  end.

#[global] Instance result_fmap : FMap result :=
  λ A B f r, match r with Ok a => Ok (f a) | Err e => Err e end.

Fixpoint result_mapM {A B} (f : A → result B) (l : list A) : result (list B) :=
  match l with
  | [] => Ok []
  | x :: l' =>
      result_bind (f x) (λ y,
      result_bind (result_mapM f l') (λ ys, Ok (y :: ys)))
  end.

(** ** Python built-ins used by the module *)

(** [int(s)] on a decimal string; anything that is not an optional minus
    sign followed by at least one digit is a [ValueError]. *)
Definition py_int (s : string) : result Z :=
  match NilZero.int_of_string s with
  | Some (Decimal.Pos Decimal.Nil) | Some (Decimal.Neg Decimal.Nil) | None =>
      Err ValueError
  | Some d => Ok (Z.of_int d)
  end.

(** [str(n)] on an integer. *)
Definition py_str (n : Z) : string := NilZero.string_of_int (Z.to_int n).

(** [l[start:stop]] with Python's treatment of negative and
    out-of-range bounds. *)
Definition slice_bound (len i : Z) : Z :=
  if i <? 0 then Z.max 0 (i + len) else Z.min i len.

Definition py_slice {A} (l : list A) (start stop : Z) : list A :=
  let len := Z.of_nat (length l) in
  let lo := slice_bound len start in
  let hi := slice_bound len stop in
  take (Z.to_nat (hi - lo)) (drop (Z.to_nat lo) l).

(** [sorted(l, key=key)] / [l.sort(key=key)]: a stable sort that only
    ever asks whether one key is strictly below another. *)
Section StableSort.
Context {A K : Type} (ltb : K → K → bool) (key : A → K).

Fixpoint insert_by (x : A) (l : list A) : list A :=
  match l with
  | [] => [x]
  | y :: l' => if ltb (key y) (key x) then y :: insert_by x l' else x :: y :: l'
  end.

Definition sort_by (l : list A) : list A := foldr insert_by [] l.
End StableSort.

(** Modelled from the spec: [litecord.utils.index_by_func] is imported but
    its file is not part of the sources; the spec's "locates the member's
    current flat index (scanning ... in order)" is the first index whose
    item satisfies the predicate, [None] when there is none.  Its callers
    index with the result ([presences[p_idx]], [self.items[item_index]]),
    so the index counts from 0. *)
Fixpoint index_by_func {A} (f : A → bool) (l : list A) : option nat :=
  match l with
  | [] => None
  | x :: l' => if f x then Some 0%nat else S <$> index_by_func f l'
  end.

(** [not idx] for an [Optional[int]]: true on [None] and on [0]. *)
Definition py_not_index (idx : option nat) : bool :=
  match idx with
  | None | Some O => true
  | Some (S _) => false
  end.

(** ** Data model *)

(** [GroupID = Union[int, str]]. *)
Inductive GroupID :=
  | RoleId (n : Z)
  | SimpleGroup (s : string).

#[global] Instance GroupID_eq_dec : EqDecision GroupID.
Proof. solve_decision. Defined.

#[global] Instance GroupID_countable : Countable GroupID.
Proof.
  refine (inj_countable'
    (λ g, match g with RoleId n => inl n | SimpleGroup s => inr s end)
    (λ x, match x with inl n => RoleId n | inr s => SimpleGroup s end) _).
  by intros [].
Defined.

Record GroupInfo := mkGroupInfo {
  gid : GroupID;
  name : string;
  position : Z;
  permissions : Z;
}.

(** An element of [MemberList.groups].  The annotation says
    [List[GroupInfo]], but [set_groups] stores bare role ids next to the
    two synthetic [GroupInfo] objects, so the list is heterogeneous. *)
Inductive GroupEntry :=
  | BareId (g : GroupID)
  | Info (g : GroupInfo).

(** [entry.gid]: attribute access fails on a bare id. *)
Definition attr_gid (e : GroupEntry) : result GroupID :=
  match e with
  | Info g => Ok (gid g)
  | BareId _ => Err AttributeError
  end.

Record User := mkUser {
  user_id : string;
  username : string;
}.

(** A presence dictionary: the three keys the module reads, and the rest
    of the dictionary as an opaque map. *)
Record Presence := mkPresence {
  user : User;
  roles : list string;
  status : string;
  extra : gmap string string;
}.

(** The [partial_presence] argument of [pres_update]: any subset of the
    keys of a presence. *)
Record PartialPresence := mkPartial {
  p_user : option User;
  p_roles : option (list string);
  p_status : option string;
  p_extra : gmap string string;
}.

(** [presence.update(partial)]. *)
Definition presence_update (p : Presence) (u : PartialPresence) : Presence :=
  {| user := default (user p) (p_user u);
     roles := default (roles p) (p_roles u);
     status := default (status p) (p_status u);
     extra := p_extra u ∪ extra p |}.

(** A row of [storage.get_member_data]. *)
Record Member := mkMember {
  m_user : User;
  nick : option string;
}.

(** A row of [storage.chan_overwrites]. *)
Record Overwrite := mkOverwrite {
  ov_id : string;
  ov_allow : Z;
  ov_deny : Z;
}.

(** A row of the [roles] table. *)
Record RoleRow := mkRoleRow {
  row_id : Z;
  row_name : string;
  row_hoist : bool;
  row_position : Z;
  row_permissions : Z;
}.

Record MemberList := mkMemberList {
  groups : option (list GroupEntry);
  group_info : option (gmap GroupID GroupInfo);
  data : option (gmap GroupID (list Presence));
  overwrites : option (gmap Z Overwrite);
}.

Definition empty_list : MemberList := mkMemberList None None None None.

(** [MemberList.__bool__]: all four fields are not [None]. *)
Definition list_bool (l : MemberList) : bool :=
  bool_decide (is_Some (groups l)) && bool_decide (is_Some (group_info l))
  && bool_decide (is_Some (data l)) && bool_decide (is_Some (overwrites l)).

(** [MemberList.__iter__]: nothing when [groups] is [None] or empty,
    else each group with [self.data[group.gid]]. *)
Definition list_iter (l : MemberList) : result (list (GroupInfo * list Presence)) :=
  match groups l with
  | None | Some [] => Ok []
  | Some gs =>
      result_mapM (λ e,
        match e with
        | BareId _ => Err AttributeError
        | Info g =>
            match data l with
            | None => Err TypeError
            | Some d =>
                match d !! gid g with
                | Some ps => Ok (g, ps)
                | None => Err KeyError
                end
            end
        end) gs
  end.

(** An entry of the flat item list. *)
Inductive Item :=
  | GroupItem (group_id : GroupID) (count : nat)
  | MemberItem (member : Presence).

(** [Operation]: a tag and a parameter dictionary. *)
Record Params := mkParams {
  range : option (Z * Z);
  items_ : option (list Item);
  index : option nat;
  item : option Item;
}.

Record Operation := mkOperation {
  list_op : string;
  params : Params;
}.

(** The dictionary built by [Operation.to_dict]. *)
Record OpDict := mkOpDict {
  d_op : string;
  d_items : option (list Item);
  d_range : option (Z * Z);
  d_index : option nat;
  d_item : option Item;
}.

Definition getitem {A} (o : option A) : result A :=
  match o with
  | Some a => Ok a
  | None => Err KeyError
  end.

Definition in_ops (op : string) (l : list string) : bool := bool_decide (op ∈ l).

Definition to_dict (o : Operation) : result OpDict :=
  let op := list_op o in
  let p := params o in
  result_bind (if String.eqb op "SYNC" then Some <$> getitem (items_ p) else Ok None)
    (λ its,
  result_bind (if in_ops op ["SYNC"; "INVALIDATE"] then Some <$> getitem (range p) else Ok None)
    (λ rng,
  result_bind (if in_ops op ["INSERT"; "DELETE"; "UPDATE"] then Some <$> getitem (index p) else Ok None)
    (λ idx,
  result_bind (if in_ops op ["INSERT"; "UPDATE"] then Some <$> getitem (item p) else Ok None)
    (λ it, Ok (mkOpDict op its rng idx it))))).

(** The payload of one [GUILD_MEMBER_LIST_UPDATE] dispatch. *)
Record Payload := mkPayload {
  payload_id : string;
  payload_guild_id : string;
  payload_groups : list (GroupID * nat);
  payload_ops : list OpDict;
}.

(** A gateway state as returned by [StateManager.fetch_raw]. *)
Record SessState := mkSessState {
  session_id : string;
}.

(** ** Collaborators

    Everything the module reaches through [self.storage],
    [self.presence], [self.state_man] and [litecord.permissions].  Calls
    that are awaited may fail; [fetch_raw] fails with [KeyError] only,
    which the module catches, so it returns an option. *)
Record Env := mkEnv {
  storage_get_member_ids : Z → result (list Z);
  presence_guild_presences : list Z → Z → result (list Presence);
  storage_fetch_roles : Z → result (list RoleRow);
  storage_chan_overwrites : Z → result (list Overwrite);
  storage_get_member_data : Z → result (list Member);
  storage_guild_from_channel : Z → result (option Z);
  get_permissions : Z → Z → result Z;
  role_permissions : Z → Z → Z → result Z;
  overwrite_find_mix : Z → gmap Z Overwrite → GroupID → Z;
  read_messages : Z → bool;
  fetch_raw : string → option SessState;
  ws_dispatch : SessState → string → Payload → result unit;
}.

(** ** The monad of the methods *)

(** One sent event: the session id whose connection it went out on, its
    name and its payload. *)
Definition Sent : Type := string * string * Payload.

Module Proc.
(** A computation on a state [S] that may raise and that logs the
    events it sends. *)
Definition M (S A : Type) : Type := S → list Sent → result A * S * list Sent.

Definition ret {S A} (a : A) : M S A := λ s out, (Ok a, s, out).

Definition bind {S A B} (m : M S A) (k : A → M S B) : M S B :=
  λ s out,
    match m s out with
    | (Ok a, s', out') => k a s' out'
    | (Err e, s', out') => (Err e, s', out')
    end.

Definition raise {S A} (e : exn) : M S A := λ s out, (Err e, s, out).

Definition lift {S A} (r : result A) : M S A :=
  λ s out, (r, s, out).

Definition get {S} : M S S := λ s out, (Ok s, s, out).

Definition modify {S} (f : S → S) : M S unit := λ s out, (Ok tt, f s, out).

Definition send {S} (m : Sent) : M S unit := λ s out, (Ok tt, s, out ++ [m]).
End Proc.

Notation "'let*' x ':=' m 'in' k" := (Proc.bind m (λ x, k))
  (at level 10, x name, m at level 100, k at level 200, only parsing).
Notation "m ;;; k" := (Proc.bind m (λ _, k))
  (at level 100, k at level 200, right associativity, only parsing).

Definition set_groups_field (v : list GroupEntry) (l : MemberList) : MemberList :=
  mkMemberList (Some v) (group_info l) (data l) (overwrites l).

Definition set_group_info_field (v : gmap GroupID GroupInfo) (l : MemberList) : MemberList :=
  mkMemberList (groups l) (Some v) (data l) (overwrites l).

Definition set_data_field (v : gmap GroupID (list Presence)) (l : MemberList) : MemberList :=
  mkMemberList (groups l) (group_info l) (Some v) (overwrites l).

Definition set_overwrites_field (v : gmap Z Overwrite) (l : MemberList) : MemberList :=
  mkMemberList (groups l) (group_info l) (data l) (Some v).

(** [_to_simple_group]. *)
Definition _to_simple_group (status : string) : GroupID :=
  if String.eqb status "offline" then SimpleGroup "offline" else SimpleGroup "online".

Definition online_group : GroupInfo := mkGroupInfo (SimpleGroup "online") "online" (-1) (-1).
Definition offline_group : GroupInfo := mkGroupInfo (SimpleGroup "offline") "offline" (-1) (-1).

(** [{key(x): value(x) for x in l}]: a later entry replaces an earlier
    one with the same key. *)
Definition dict_of_list `{Countable K} {A V} (key : A → K) (value : A → V)
    (l : list A) : gmap K V :=
  foldl (λ m x, <[key x := value x]> m) ∅ l.

(** ** class GuildMemberList *)

Module GuildMemberList.

Record t := mk {
  guild_id : Z;
  channel_id : Z;
  (** [self.list] *)
  mlist : MemberList;
  (** [self.state], a [defaultdict(set)], in insertion order. *)
  state : list (string * gset (Z * Z));
}.

Definition set_mlist (f : MemberList → MemberList) (g : t) : t :=
  mk (guild_id g) (channel_id g) (f (mlist g)) (state g).

Definition set_state (f : list (string * gset (Z * Z)) → list (string * gset (Z * Z)))
    (g : t) : t :=
  mk (guild_id g) (channel_id g) (mlist g) (f (state g)).

Section Methods.
Context (E : Env).

#[local] Abbreviation M := (Proc.M t).

(** [list_id]. *)
Definition list_id (g : t) : string :=
  if bool_decide (channel_id g = guild_id g) then "everyone" else py_str (channel_id g).

(** [_set_empty_list]. *)
Definition _set_empty_list : M unit := Proc.modify (set_mlist (λ _, empty_list)).

(** [{int(ov['id']): ov for ov in overwrites}]. *)
Fixpoint overwrites_by_id (acc : gmap Z Overwrite) (ovs : list Overwrite)
    : result (gmap Z Overwrite) :=
  match ovs with
  | [] => Ok acc
  | ov :: ovs' =>
      result_bind (py_int (ov_id ov)) (λ k, overwrites_by_id (<[k := ov]> acc) ovs')
  end.

(** [_fetch_overwrites]. *)
Definition _fetch_overwrites : M unit :=
  let* self := Proc.get in
  let* ovs := Proc.lift (storage_chan_overwrites E (channel_id self)) in
  let* d := Proc.lift (overwrites_by_id ∅ ovs) in
  Proc.modify (set_mlist (set_overwrites_field d)).

(** [g.gid in roles]: a role id is compared with the member's role
    ids, a string id is never equal to an integer. *)
Definition gid_in_roles (g : GroupID) (member_roles : list Z) : bool :=
  match g with
  | RoleId n => bool_decide (n ∈ member_roles)
  | SimpleGroup _ => false
  end.

(** The generator expression of [_calc_member_group]: [None] stands
    for [StopIteration]. *)
Fixpoint first_entitled (gs : list GroupEntry) (member_roles : list Z)
    : result (option GroupID) :=
  match gs with
  | [] => Ok None
  | e :: gs' =>
      result_bind (attr_gid e) (λ g,
        if gid_in_roles g member_roles then Ok (Some g)
        else first_entitled gs' member_roles)
  end.

(** [_calc_member_group]. *)
Definition _calc_member_group (member_roles : list Z) (status : string) : M GroupID :=
  let* self := Proc.get in
  match groups (mlist self) with
  | None => Proc.raise TypeError
  | Some gs =>
      let* found := Proc.lift (first_entitled gs member_roles) in
      match found with
      | Some group_id => Proc.ret group_id
      | None => Proc.ret (_to_simple_group status)
      end
  end.

Definition row_group (row : RoleRow) : GroupInfo :=
  mkGroupInfo (RoleId (row_id row)) (row_name row) (row_position row) (row_permissions row).

(** The body of [_can_read_chan] up to its return: the group with its
    permissions replaced by the mixed ones. *)
Definition mix_group (ovs : gmap Z Overwrite) (group : GroupInfo) : GroupInfo :=
  mkGroupInfo (gid group) (name group) (position group)
    (overwrite_find_mix E (permissions group) ovs (gid group)).

(** [get_roles]. *)
Definition get_roles : M (list GroupInfo) :=
  let* self := Proc.get in
  let* roledata := Proc.lift (storage_fetch_roles E (guild_id self)) in
  let hoisted := row_group <$> filter (λ row, row_hoist row = true) roledata in
  let hoisted := sort_by Z.ltb position hoisted in
  _fetch_overwrites;;;
  let* self := Proc.get in
  match overwrites (mlist self) with
  | None => Proc.raise TypeError
  | Some ovs =>
      Proc.ret (filter (λ g, read_messages E (permissions g) = true)
                  (mix_group ovs <$> hoisted))
  end.

(** [set_groups]. *)
Definition set_groups : M unit :=
  let* role_groups := get_roles in
  let role_ids := gid <$> role_groups in
  Proc.modify (set_mlist (set_groups_field
    ((BareId <$> role_ids) ++ [BareId (SimpleGroup "online"); BareId (SimpleGroup "offline")])));;;
  Proc.modify (set_mlist (set_groups_field
    ((BareId <$> role_ids) ++ [Info online_group; Info offline_group])));;;
  Proc.modify (set_mlist (set_group_info_field (dict_of_list gid (λ g, g) role_groups))).

(** [self.list.data[group_id].append(presence)]. *)
Definition data_append (group_id : GroupID) (presence : Presence) : M unit :=
  let* self := Proc.get in
  match data (mlist self) with
  | None => Proc.raise TypeError
  | Some d =>
      match d !! group_id with
      | None => Proc.raise KeyError
      | Some ps =>
          Proc.modify (set_mlist (set_data_field (<[group_id := ps ++ [presence]]> d)))
      end
  end.

(** [_pass_1]. *)
Fixpoint _pass_1 (guild_presences : list Presence) : M unit :=
  match guild_presences with
  | [] => Proc.ret tt
  | presence :: rest =>
      let* member_id := Proc.lift (py_int (user_id (user presence))) in
      let* member_roles := Proc.lift (result_mapM py_int (roles presence)) in
      let* self := Proc.get in
      let* member_perms := Proc.lift (get_permissions E member_id (channel_id self)) in
      if negb (read_messages E member_perms) then _pass_1 rest
      else
        let* group_id := (if String.eqb (status presence) "offline"
                          then Proc.ret (SimpleGroup "offline")
                          else _calc_member_group member_roles (status presence)) in
        data_append group_id presence;;;
        _pass_1 rest
  end.

(** [display_name] inside [_sort_groups]: [nick or uname]. *)
Definition display_name (member_nicks : gmap string (option string))
    (presence : Presence) : string :=
  match member_nicks !! user_id (user presence) with
  | Some (Some n) => if String.eqb n "" then username (user presence) else n
  | _ => username (user presence)
  end.

(** [_sort_groups]. *)
Definition _sort_groups : M unit :=
  let* self := Proc.get in
  let* members := Proc.lift (storage_get_member_data E (guild_id self)) in
  let member_nicks := dict_of_list (λ m, user_id (m_user m)) nick members in
  let* self := Proc.get in
  match data (mlist self) with
  | None => Proc.raise AttributeError
  | Some d =>
      Proc.modify (set_mlist (set_data_field
        (sort_by String.ltb (display_name member_nicks) <$> d)))
  end.

(** [_init_member_list]. *)
Definition _init_member_list : M unit :=
  let* self := Proc.get in
  let* member_ids := Proc.lift (storage_get_member_ids E (guild_id self)) in
  let* guild_presences := Proc.lift (presence_guild_presences E member_ids (guild_id self)) in
  set_groups;;;
  let* self := Proc.get in
  match groups (mlist self) with
  | None => Proc.raise TypeError
  | Some gs =>
      let* gids := Proc.lift (result_mapM attr_gid gs) in
      Proc.modify (set_mlist (set_data_field
        (dict_of_list (λ g, g) (λ _, []) gids)));;;
      _pass_1 guild_presences;;;
      _sort_groups
  end.

(** [_init_check]. *)
Definition _init_check : M unit :=
  let* self := Proc.get in
  if list_bool (mlist self) then Proc.ret tt else _init_member_list.

(** The [items] property. *)
Definition group_items (gp : GroupInfo * list Presence) : list Item :=
  GroupItem (gid gp.1) (length gp.2) :: (MemberItem <$> gp.2).

Definition items (self : t) : result (list Item) :=
  if list_bool (mlist self) then
    (λ gps, concat (group_items <$> gps)) <$> list_iter (mlist self)
  else Ok [].

(** [sub]. *)
Definition sub (_session_id : string) : M unit := _init_check.

(** [self.state.pop(session_id)] with its [KeyError] swallowed. *)
Definition state_pop (sid : string) (st : list (string * gset (Z * Z)))
    : list (string * gset (Z * Z)) :=
  filter (λ kv, kv.1 ≠ sid) st.

(** [unsub]. *)
Definition unsub (sid : string) : M unit :=
  Proc.modify (set_state (state_pop sid));;;
  let* self := Proc.get in
  match state self with
  | [] => _set_empty_list
  | _ :: _ => Proc.ret tt
  end.

(** [get_state]. *)
Definition get_state (sid : string) : M (option SessState) :=
  match fetch_raw E sid with
  | Some st => Proc.ret (Some st)
  | None => unsub sid;;; Proc.ret None
  end.

(** [self.state[session_id].add(range)]. *)
Fixpoint state_add (sid : string) (r : Z * Z) (st : list (string * gset (Z * Z)))
    : list (string * gset (Z * Z)) :=
  match st with
  | [] => [(sid, {[ r ]})]
  | (k, rs) :: st' =>
      if decide (k = sid) then (k, {[ r ]} ∪ rs) :: st'
      else (k, rs) :: state_add sid r st'
  end.

(** [self.state[sess_id]] for a key of the dictionary. *)
Fixpoint state_get (sid : string) (st : list (string * gset (Z * Z)))
    : option (gset (Z * Z)) :=
  match st with
  | [] => None
  | (k, rs) :: st' => if decide (k = sid) then Some rs else state_get sid st'
  end.

(** [_is_in] inside [pres_update]. *)
Definition _is_in (self : t) (item_index : nat) (sess_id : string) : bool :=
  match state_get sess_id (state self) with
  | None => false
  | Some ranges =>
      existsb (λ r, (r.1 <=? Z.of_nat item_index) && (Z.of_nat item_index <=? r.2))
        (elements ranges)
  end.

(** The [session_ids] argument of [_dispatch_sess]: [shard_query]
    passes a list, [pres_update] passes the lazy
    [filter(_is_in, self.state.keys())]. *)
Inductive SessionIds :=
  | SessionList (l : list string)
  | SessionsInRange (item_index : nat).

(** The [for state in states] loop of [_dispatch_sess].  With
    [live = Some (item_index, used)] the ids are pulled from the key
    view of [self.state], whose iterator raises as soon as the
    dictionary no longer has the [used] entries it had when the
    iterator was made. *)
Fixpoint dispatch_loop (live : option (nat * nat)) (keys : list string)
    (payload : Payload) (dispatched : list string) : M (list string) :=
  let* self := Proc.get in
  if match live with
     | Some (_, used) => negb (length (state self) =? used)%nat
     | None => false
     end
  then Proc.raise RuntimeError
  else
    match keys with
    | [] => Proc.ret dispatched
    | k :: rest =>
        if match live with
           | Some (item_index, _) => negb (_is_in self item_index k)
           | None => false
           end
        then dispatch_loop live rest payload dispatched
        else
          let* st := get_state k in
          match st with
          | None => dispatch_loop live rest payload dispatched
          | Some st =>
              Proc.lift (ws_dispatch E st "GUILD_MEMBER_LIST_UPDATE" payload);;;
              Proc.send (k, "GUILD_MEMBER_LIST_UPDATE", payload);;;
              dispatch_loop live rest payload (dispatched ++ [session_id st])
          end
    end.

(** [_dispatch_sess]. *)
Definition _dispatch_sess (session_ids : SessionIds) (operations : list Operation)
    : M (list string) :=
  let* self := Proc.get in
  let* gps := Proc.lift (list_iter (mlist self)) in
  let* ops := Proc.lift (result_mapM to_dict operations) in
  let payload :=
    mkPayload (list_id self) (py_str (guild_id self))
      ((λ gp, (gid gp.1, length gp.2)) <$> gps) ops in
  match session_ids with
  | SessionList l => dispatch_loop None l payload []
  | SessionsInRange item_index =>
      dispatch_loop (Some (item_index, length (state self))) ((state self).*1) payload []
  end.

(** The [for start, end in ranges] loop of [shard_query]. *)
Fixpoint sync_ranges (sid : string) (ranges : list (Z * Z)) (ops : list Operation)
    : M (list Operation) :=
  match ranges with
  | [] => Proc.ret ops
  | (start, end_) :: rest =>
      let itemcount := end_ - start in
      if itemcount <? 0 then sync_ranges sid rest ops
      else
        Proc.modify (set_state (state_add sid (start, end_)));;;
        let* self := Proc.get in
        let* its := Proc.lift (items self) in
        sync_ranges sid rest
          (ops ++ [mkOperation "SYNC"
                     (mkParams (Some (start, end_)) (Some (py_slice its start end_))
                        None None)])
  end.

(** [shard_query] from [await self._init_check()] on, that is, when
    the request is not redirected to the 'everyone' list. *)
Definition shard_query_here (sid : string) (ranges : list (Z * Z)) : M unit :=
  _init_check;;;
  let* ops := sync_ranges sid ranges [] in
  _dispatch_sess (SessionList [sid]) ops;;;
  Proc.ret tt.

(** The [for _group, presences in self.list] loop of [pres_update]. *)
Fixpoint merge_presence (uid : string) (partial_presence : PartialPresence)
    (gs : list GroupEntry) : M unit :=
  match gs with
  | [] => Proc.ret tt
  | e :: rest =>
      let* g := Proc.lift (attr_gid e) in
      let* self := Proc.get in
      match data (mlist self) with
      | None => Proc.raise TypeError
      | Some d =>
          match d !! g with
          | None => Proc.raise KeyError
          | Some presences =>
              let p_idx :=
                index_by_func (λ p, String.eqb (user_id (user p)) uid) presences in
              if py_not_index p_idx then merge_presence uid partial_presence rest
              else
                Proc.modify (set_mlist (set_data_field
                  (<[g := alter (λ p, presence_update p partial_presence)
                            (default 0%nat p_idx) presences]> d)));;;
                merge_presence uid partial_presence rest
          end
      end
  end.

(** [_get_id] inside [pres_update]. *)
Definition _get_id (p : Item) : option string :=
  match p with
  | MemberItem m => Some (user_id (user m))
  | GroupItem _ _ => None
  end.

(** [pres_update]. *)
Definition pres_update (uid : Z) (partial_presence : PartialPresence) : M (list string) :=
  _init_check;;;
  let* self := Proc.get in
  merge_presence (py_str uid) partial_presence (default [] (groups (mlist self)));;;
  let* self := Proc.get in
  let* its := Proc.lift (items self) in
  let item_index :=
    index_by_func (λ p, bool_decide (_get_id p = Some (py_str uid))) its in
  if py_not_index item_index then Proc.ret []
  else
    let item_index := default 0%nat item_index in
    match its !! item_index with
    | None => Proc.raise KeyError
    | Some item =>
        _dispatch_sess (SessionsInRange item_index)
          [mkOperation "UPDATE" (mkParams None None (Some item_index) (Some item))]
    end.

(** [dispatch]: nothing follows the readiness guard. *)
Definition dispatch {A} (event : string) (data : A) : M unit :=
  let* self := Proc.get in
  if negb (list_bool (mlist self)) then Proc.ret tt
  else Proc.ret tt.
End Methods.
End GuildMemberList.

(** ** class LazyGuildDispatcher *)

Module LazyGuildDispatcher.

Record t := mk {
  (** [{chan_id: gml}]; a member list is referred to by the channel id
      it is stored under. *)
  state : gmap Z GuildMemberList.t;
  (** [{guild_id: [chan_id, ...]}], a [defaultdict(list)]. *)
  guild_map : gmap Z (list Z);
}.

Section Methods.
Context (E : Env).

#[local] Abbreviation M := (Proc.M t).

(** Run a method of the member list stored under [chan]. *)
Definition on_gml {A} (chan : Z) (m : Proc.M GuildMemberList.t A) : M A :=
  λ lg out,
    match state lg !! chan with
    | None => (Err KeyError, lg, out)
    | Some g =>
        match m g out with
        | (r, g', out') => (r, mk (<[chan := g']> (state lg)) (guild_map lg), out')
        end
    end.

(** [get_gml]. *)
Definition get_gml (channel_id : Z) : M Z :=
  let* lg := Proc.get in
  match state lg !! channel_id with
  | Some _ => Proc.ret channel_id
  | None =>
      let* found := Proc.lift (storage_guild_from_channel E channel_id) in
      let guild_id :=
        match found with
        | None | Some 0 => channel_id
        | Some g => g
        end in
      Proc.modify (λ lg,
        mk (<[channel_id := GuildMemberList.mk guild_id channel_id empty_list []]> (state lg))
           (<[guild_id := default [] (guild_map lg !! guild_id) ++ [channel_id]]>
              (guild_map lg)));;;
      Proc.ret channel_id
  end.

(** [get_gml_guild]; reading a [defaultdict] creates the entry. *)
Definition get_gml_guild (guild_id : Z) : M (list (option GuildMemberList.t)) :=
  let* lg := Proc.get in
  let chans := default [] (guild_map lg !! guild_id) in
  Proc.modify (λ lg, mk (state lg) (<[guild_id := chans]> (guild_map lg)));;;
  Proc.ret ((λ c, state lg !! c) <$> chans).

(** [unsub]. *)
Definition unsub (chan_id : Z) (session_id : string) : M unit :=
  let* gml := get_gml chan_id in
  on_gml gml (GuildMemberList.unsub session_id).

(** [GuildMemberList.shard_query] on the list stored under [self];
    it reaches the dispatcher through [self.main].  Each level of fuel
    pays for one redirection to the guild's 'everyone' list. *)
Fixpoint shard_query (fuel : nat) (self : Z) (session_id : string)
    (ranges : list (Z * Z)) : M unit :=
  match fuel with
  | O => Proc.raise OutOfFuel
  | S fuel' =>
      let* lg := Proc.get in
      match state lg !! self with
      | None => Proc.raise KeyError
      | Some g =>
          let list_id := GuildMemberList.list_id g in
          let* everyone_perms :=
            Proc.lift (role_permissions E (GuildMemberList.guild_id g)
                         (GuildMemberList.guild_id g) (GuildMemberList.channel_id g)) in
          if read_messages E everyone_perms && negb (String.eqb list_id "everyone") then
            let* everyone_gml := get_gml (GuildMemberList.guild_id g) in
            shard_query fuel' everyone_gml session_id ranges
          else
            on_gml self (GuildMemberList.shard_query_here E session_id ranges)
      end
  end.
End Methods.
End LazyGuildDispatcher.

(** * Vocabulary of the properties *)

Import GuildMemberList.

(** No key of the result is strictly above the key that follows it. *)
Definition key_sorted {A K} (ltb : K → K → bool) (key : A → K) (l : list A) : Prop :=
  Sorted (λ x y, ltb (key y) (key x) = false) l.

Section Vocabulary.
Context (E : Env).

(** The hoisted roles that may read the channel, as [get_roles]
    returns them. *)
Definition readable_hoisted (ovs : gmap Z Overwrite) (rows : list RoleRow)
    : list GroupInfo :=
  filter (λ g, read_messages E (permissions g) = true)
    (mix_group E ovs <$>
       sort_by Z.ltb position (row_group <$> filter (λ row, row_hoist row = true) rows)).

(** The list left in place by a [set_groups] that found the readable
    hoisted roles [rg] and the overwrites [d]. *)
Definition with_groups (d : gmap Z Overwrite) (rg : list GroupInfo) (l : MemberList)
    : MemberList :=
  mkMemberList (Some ((BareId <$> (gid <$> rg)) ++ [Info online_group; Info offline_group]))
    (Some (dict_of_list gid (λ g, g) rg)) (data l) (Some d).

(** A presence whose user passes the channel-read gate of [_pass_1]. *)
Definition permitted (chan : Z) (p : Presence) : Prop :=
  ∃ member_id perms,
    py_int (user_id (user p)) = Ok member_id
    ∧ get_permissions E member_id chan = Ok perms
    ∧ read_messages E perms = true.

(** What [_pass_1] may do to the buckets [d]: keep the same keys and
    append, to each bucket, permitted presences taken from [ps]. *)
Definition pass_1_grows (chan : Z) (ps : list Presence)
    (d d' : gmap GroupID (list Presence)) : Prop :=
  (∀ k, is_Some (d' !! k) ↔ is_Some (d !! k))
  ∧ (∀ k l', d' !! k = Some l' →
       ∃ l0 added, d !! k = Some l0 ∧ l' = l0 ++ added
         ∧ Forall (permitted chan) added ∧ Forall (λ p, p ∈ ps) added).

(** The buckets right after line 309 of a build that got that far. *)
Definition fresh_buckets : gmap GroupID (list Presence) :=
  dict_of_list (λ k, k) (λ _, []) [SimpleGroup "online"; SimpleGroup "offline"].

(** [_sort_groups] on the buckets. *)
Definition sort_buckets (members : list Member) (d : gmap GroupID (list Presence))
    : gmap GroupID (list Presence) :=
  sort_by String.ltb (display_name (dict_of_list (λ m, user_id (m_user m)) nick members))
    <$> d.

(** A list whose four fields are set, whose groups are all
    [GroupInfo] objects and each have their bucket. *)
Definition ready (l : MemberList) : Prop :=
  ∃ gs gi d ov,
    l = mkMemberList (Some (Info <$> gs)) (Some gi) (Some d) (Some ov)
    ∧ ∀ g, g ∈ gs → is_Some (d !! gid g).

(** The invariant of the stored list: if [__bool__] holds, it is
    ready. *)
Definition store_inv (g : t) : Prop :=
  list_bool (mlist g) = true → ready (mlist g).

(** What every method keeps true of the stored list: as long as the
    buckets are not there nothing is promised, and once they are the
    list is ready. *)
Definition list_inv (l : MemberList) : Prop :=
  data l = None ∨ ready l.

(** One of the four fetches that come before any assignment fails. *)
Definition fetch_failed (g : t) : Prop :=
  (∃ e, storage_get_member_ids E (guild_id g) = Err e)
  ∨ (∃ ids e, storage_get_member_ids E (guild_id g) = Ok ids
              ∧ presence_guild_presences E ids (guild_id g) = Err e)
  ∨ (∃ e, storage_fetch_roles E (guild_id g) = Err e)
  ∨ (∃ e, storage_chan_overwrites E (channel_id g) = Err e).

(** The four fetches succeed and the build gets to [_pass_1]. *)
Definition reaches_pass_1 (g : t) : Prop :=
  ∃ ids ps rows ovs ov,
    storage_get_member_ids E (guild_id g) = Ok ids
    ∧ presence_guild_presences E ids (guild_id g) = Ok ps
    ∧ storage_fetch_roles E (guild_id g) = Ok rows
    ∧ storage_chan_overwrites E (channel_id g) = Ok ovs
    ∧ overwrites_by_id ∅ ovs = Ok ov
    ∧ readable_hoisted ov rows = [].

(** The test [_pass_1] makes before it places a presence: the user id
    is an integer, the permission lookup answers, and the answer grants
    read-messages. *)
Definition passes_gate (chan : Z) (p : Presence) : bool :=
  match py_int (user_id (user p)) with
  | Ok member_id =>
      match get_permissions E member_id chan with
      | Ok perms => read_messages E perms
      | Err _ => false
      end
  | Err _ => false
  end.

(** [status == 'offline']. *)
Definition is_offline (p : Presence) : bool := String.eqb (status p) "offline".

(** The member-nickname dictionary that [_sort_groups] sorts with. *)
Definition nick_dict (members : list Member) : gmap string (option string) :=
  dict_of_list (λ m, user_id (m_user m)) nick members.

(** The calls that [_pass_1] makes for a presence all answer: the user
    id and the role ids are integers and the permission lookup
    returns. *)
Definition gate_answers (chan : Z) (p : Presence) : Prop :=
  ∃ member_id member_roles perms,
    py_int (user_id (user p)) = Ok member_id
    ∧ result_mapM py_int (roles p) = Ok member_roles
    ∧ get_permissions E member_id chan = Ok perms.

(** The two buckets once [_pass_1] has gone through [ps], in a list
    that has only the synthetic groups. *)
Definition placed (chan : Z) (ps : list Presence) : gmap GroupID (list Presence) :=
  <[SimpleGroup "offline" :=
      filter (λ p, passes_gate chan p = true ∧ is_offline p = true) ps]>
    (<[SimpleGroup "online" :=
         filter (λ p, passes_gate chan p = true ∧ is_offline p = false) ps]> ∅).
End Vocabulary.


(** The flat sequence of a list that has only the synthetic groups. *)
Definition flat_two (on off : list Presence) : list Item :=
  GroupItem (SimpleGroup "online") (length on) :: (MemberItem <$> on)
  ++ GroupItem (SimpleGroup "offline") (length off) :: (MemberItem <$> off).

(** What the loop of [pres_update] does to one bucket: the first
    record of the user is replaced by the merged one, unless it is the
    first record of the bucket. *)
Definition merge_bucket (uid : string) (partial_presence : PartialPresence)
    (presences : list Presence) : list Presence :=
  match index_by_func (λ p, String.eqb (user_id (user p)) uid) presences with
  | Some (S n) => alter (λ p, presence_update p partial_presence) (S n) presences
  | _ => presences
  end.

(** The group headers of a flat sequence, as (id, count) pairs. *)
Definition headers (its : list Item) : list (GroupID * nat) :=
  omap (λ it, match it with
              | GroupItem group_id count => Some (group_id, count)
              | MemberItem _ => None
              end) its.

(** The dictionary sent for an UPDATE operation. *)
Definition update_dict (item_index : nat) (item : Item) : OpDict :=
  mkOpDict "UPDATE" None None (Some item_index) (Some item).

(** The guild id that [get_gml] gives a new member list: the one the
    storage found, or the channel id when it found none. *)
Definition guild_or_channel (found : option Z) (channel_id : Z) : Z :=
  match found with
  | None | Some 0 => channel_id
  | Some g => g
  end.

(** The dispatcher's two dictionaries agree: a member list is stored
    under its own channel id and that id is listed under its guild;
    every listed channel has a member list of that guild; no channel is
    listed twice. *)
Definition registry_wf (lg : LazyGuildDispatcher.t) : Prop :=
  (∀ c g, LazyGuildDispatcher.state lg !! c = Some g →
     channel_id g = c
     ∧ ∃ chans, LazyGuildDispatcher.guild_map lg !! guild_id g = Some chans ∧ c ∈ chans)
  ∧ (∀ guild chans c,
       LazyGuildDispatcher.guild_map lg !! guild = Some chans → c ∈ chans →
       ∃ g, LazyGuildDispatcher.state lg !! c = Some g ∧ guild_id g = guild)
  ∧ (∀ guild chans, LazyGuildDispatcher.guild_map lg !! guild = Some chans → NoDup chans).

(** The ranges recorded under a session. *)
Definition recorded (sid : string) (g : t) : gset (Z * Z) :=
  default ∅ (state_get sid (state g)).

(** A range that [shard_query] does not skip. *)
Definition valid_range (r : Z * Z) : Prop := r.1 ≤ r.2.

#[global] Instance valid_range_dec r : Decision (valid_range r).
Proof. unfold valid_range. apply _. Defined.

(** The SYNC operation for a range, and the dictionary sent for it. *)
Definition sync_op (its : list Item) (r : Z * Z) : Operation :=
  mkOperation "SYNC" (mkParams (Some r) (Some (py_slice its r.1 r.2)) None None).

Definition sync_dict (its : list Item) (r : Z * Z) : OpDict :=
  mkOpDict "SYNC" (Some (py_slice its r.1 r.2)) (Some r) None None.

Definition record_ranges (sid : string) (rs : list (Z * Z))
    (st : list (string * gset (Z * Z))) : list (string * gset (Z * Z)) :=
  foldl (λ st r, state_add sid r st) st rs.

(** ** Sample guilds *)

Module Scenario.
Definition alice : Presence := mkPresence (mkUser "1" "alice") [] "online" ∅.
Definition bob : Presence := mkPresence (mkUser "2" "bob") [] "offline" ∅.
Definition carl : Presence := mkPresence (mkUser "3" "Carl") ["7"] "idle" ∅.

(** Guild 10 with the members bob, alice and carl (alice has the
    nickname "zed"), the role rows [rows], no channel overwrite, and
    [perm] as the channel permission of each member. *)
Definition env (rows : list RoleRow) (perm : Z → result Z) : Env := {|
  storage_get_member_ids := λ _, Ok [2; 1; 3];
  presence_guild_presences := λ _ _, Ok [bob; alice; carl];
  storage_fetch_roles := λ _, Ok rows;
  storage_chan_overwrites := λ _, Ok [];
  storage_get_member_data := λ _, Ok [mkMember (mkUser "1" "alice") (Some "zed")];
  storage_guild_from_channel := λ _, Ok (Some 10);
  get_permissions := λ member_id _, perm member_id;
  role_permissions := λ _ _ _, Ok 0;
  overwrite_find_mix := λ perms _ _, perms;
  read_messages := λ perms, Z.testbit perms 10;
  fetch_raw := λ sid, Some (mkSessState sid);
  ws_dispatch := λ _ _ _, Ok tt;
|}.

(** Everyone may read the channel; no role is hoisted. *)
Definition plain : Env := env [] (λ _, Ok 1024).

(** Carl may not read the channel. *)
Definition gated : Env := env [] (λ m, if m =? 3 then Ok 0 else Ok 1024).

(** The permission lookup fails for carl. *)
Definition gate_fails : Env :=
  env [] (λ m, if m =? 3 then Err (CollaboratorError "get_permissions") else Ok 1024).

(** Role 7 is hoisted and may read the channel. *)
Definition hoisted : Env := env [mkRoleRow 7 "mods" true 1 1024] (λ _, Ok 1024).

(** The member list of channel 20 of guild 10, as [get_gml] makes it. *)
Definition fresh : GuildMemberList.t := GuildMemberList.mk 10 20 empty_list [].

(** The dispatcher once channel 20 was looked up. *)
Definition registry : LazyGuildDispatcher.t :=
  LazyGuildDispatcher.mk {[ 20 := fresh ]} {[ 10 := [20] ]}.
End Scenario.

(** More sample data, for the further properties. *)
Module Sample.
(** [E] with another state manager and another answer of
    [role_permissions]. *)
Definition override (E : Env) (fetch : string → option SessState)
    (everyone_perms : Z) : Env := {|
  storage_get_member_ids := storage_get_member_ids E;
  presence_guild_presences := presence_guild_presences E;
  storage_fetch_roles := storage_fetch_roles E;
  storage_chan_overwrites := storage_chan_overwrites E;
  storage_get_member_data := storage_get_member_data E;
  storage_guild_from_channel := storage_guild_from_channel E;
  get_permissions := get_permissions E;
  role_permissions := λ _ _ _, Ok everyone_perms;
  overwrite_find_mix := overwrite_find_mix E;
  read_messages := read_messages E;
  fetch_raw := fetch;
  ws_dispatch := ws_dispatch E;
|}.

(** Five roles: four hoisted, of which one may not read the channel. *)
Definition roles : Env :=
  Scenario.env
    [mkRoleRow 7 "mods" true 2 1024; mkRoleRow 8 "vips" true 1 1024;
     mkRoleRow 9 "muted" true 1 0; mkRoleRow 5 "plain" false 1 1024;
     mkRoleRow 6 "helpers" true 1 1024]
    (λ _, Ok 1024).

(** The state manager has lost the session "ghost". *)
Definition ghost : Env :=
  override Scenario.plain
    (λ sid, if String.eqb sid "ghost" then None else Some (mkSessState sid)) 0.

(** Everyone may read every channel. *)
Definition public : Env := override Scenario.plain (fetch_raw Scenario.plain) 1024.

(** A ready list with two online members and one offline. *)
Definition buckets : gmap GroupID (list Presence) :=
  <[SimpleGroup "offline" := [Scenario.bob]]>
    (<[SimpleGroup "online" := [Scenario.carl; Scenario.alice]]> ∅).

Definition store (subscriptions : list (string * gset (Z * Z))) : GuildMemberList.t :=
  GuildMemberList.mk 10 20
    (mkMemberList (Some [Info online_group; Info offline_group]) (Some ∅)
       (Some buckets) (Some ∅))
    subscriptions.



End Sample.

(** * Properties *)


Ltac proc_unfold :=
  unfold Proc.bind, Proc.ret, Proc.lift, Proc.get, Proc.modify, Proc.raise,
    Proc.send in *.

(** ** The stable sort *)

Section StableSortFacts.
Context {A K : Type} (ltb : K → K → bool) (key : A → K).

Lemma insert_by_Permutation x l : insert_by ltb key x l ≡ₚ x :: l.
Proof.
  induction l as [|y l IH]; simpl; [done|].
  destruct (ltb (key y) (key x)); [|done].
  rewrite IH. apply Permutation_swap.
Qed.

Lemma sort_by_Permutation l : sort_by ltb key l ≡ₚ l.
Proof.
  induction l as [|x l IH]; simpl; [done|].
  unfold sort_by in *. simpl. rewrite insert_by_Permutation. by rewrite IH.
Qed.

Lemma sort_by_elem_of x l : x ∈ sort_by ltb key l ↔ x ∈ l.
Proof. by rewrite sort_by_Permutation. Qed.

Lemma sort_by_length l : length (sort_by ltb key l) = length l.
Proof. by rewrite sort_by_Permutation. Qed.


Lemma insert_by_sorted x l :
  (∀ a b, ltb a b = true → ltb b a = false) →
  key_sorted ltb key l → key_sorted ltb key (insert_by ltb key x l).
Proof.
  intros Hasym Hs. induction Hs as [|y l Hs IH Hhd]; simpl.
  - repeat constructor.
  - destruct (ltb (key y) (key x)) eqn:Hyx.
    + constructor; [done|].
      destruct Hhd as [|z l Hz]; simpl.
      * constructor. by apply Hasym.
      * destruct (ltb (key z) (key x)); constructor; [done|by apply Hasym].
    + constructor; [by constructor|by constructor].
Qed.

Lemma sort_by_sorted l :
  (∀ a b, ltb a b = true → ltb b a = false) →
  key_sorted ltb key (sort_by ltb key l).
Proof.
  intros Hasym. induction l as [|x l IH]; [constructor|].
  unfold sort_by in *. simpl. by apply insert_by_sorted.
Qed.
End StableSortFacts.

Lemma string_ltb_asym a b : String.ltb a b = true → String.ltb b a = false.
Proof.
  unfold String.ltb. rewrite (String.compare_antisym a b).
  by destruct (String.compare b a).
Qed.

(** ** [entry.gid] over the group list *)

Lemma mapM_attr_gid_Info (gs : list GroupInfo) :
  result_mapM attr_gid (Info <$> gs) = Ok (gid <$> gs).
Proof. induction gs as [|g gs IH]; csimpl; [done|]. by rewrite IH. Qed.

Lemma mapM_attr_gid_bare (ids : list GroupID) (rest : list GroupEntry) i :
  result_mapM attr_gid ((BareId <$> (i :: ids)) ++ rest) = Err AttributeError.
Proof. done. Qed.

(** ** The build, step by step *)

Section Build.
Context (E : Env).


Lemma get_roles_eq g out :
  get_roles E g out =
    match storage_fetch_roles E (guild_id g) with
    | Err e => (Err e, g, out)
    | Ok rows =>
        match storage_chan_overwrites E (channel_id g) with
        | Err e => (Err e, g, out)
        | Ok ovs =>
            match overwrites_by_id ∅ ovs with
            | Err e => (Err e, g, out)
            | Ok d => (Ok (readable_hoisted E d rows), set_mlist (set_overwrites_field d) g, out)
            end
        end
    end.
Proof.
  unfold get_roles, _fetch_overwrites. proc_unfold.
  destruct (storage_fetch_roles E (guild_id g)) as [rows|e]; [|done].
  destruct (storage_chan_overwrites E (channel_id g)) as [ovs|e]; [|done].
  destruct (overwrites_by_id ∅ ovs) as [d|e]; [|done].
  done.
Qed.


Lemma set_groups_eq g out :
  set_groups E g out =
    match get_roles E g out with
    | (Err e, g', out') => (Err e, g', out')
    | (Ok rg, g', out') =>
        (Ok tt, set_mlist (with_groups (default ∅ (overwrites (mlist g'))) rg) g', out')
    end.
Proof.
  unfold set_groups. proc_unfold. rewrite get_roles_eq.
  destruct (storage_fetch_roles E (guild_id g)) as [rows|e]; [|done].
  destruct (storage_chan_overwrites E (channel_id g)) as [ovs|e]; [|done].
  destruct (overwrites_by_id ∅ ovs) as [d|e]; [|done].
  done.
Qed.
End Build.

Section BuildSteps.
Context (E : Env).


Lemma _init_member_list_eq g out :
  _init_member_list E g out =
    match storage_get_member_ids E (guild_id g) with
    | Err e => (Err e, g, out)
    | Ok ids =>
        match presence_guild_presences E ids (guild_id g) with
        | Err e => (Err e, g, out)
        | Ok ps =>
            match set_groups E g out with
            | (Err e, g', out') => (Err e, g', out')
            | (Ok _, g', out') =>
                match groups (mlist g') with
                | None => (Err TypeError, g', out')
                | Some gs =>
                    match result_mapM attr_gid gs with
                    | Err e => (Err e, g', out')
                    | Ok gids =>
                        Proc.bind (_pass_1 E ps) (λ _, _sort_groups E)
                          (set_mlist (set_data_field (dict_of_list (λ k, k) (λ _, []) gids)) g')
                          out'
                    end
                end
            end
        end
    end.
Proof.
  unfold _init_member_list. proc_unfold.
  destruct (storage_get_member_ids E (guild_id g)) as [ids|e]; [|done].
  destruct (presence_guild_presences E ids (guild_id g)) as [ps|e]; [|done].
  destruct (set_groups E g out) as [[[[]|e] g'] out']; [|done].
  destruct (groups (mlist g')) as [gs|]; [|done].
  by destruct (result_mapM attr_gid gs) as [gids|e].
Qed.

Lemma _sort_groups_eq gi ci G GI d OV st out :
  _sort_groups E (mk gi ci (mkMemberList G GI (Some d) OV) st) out =
    match storage_get_member_data E gi with
    | Err e => (Err e, mk gi ci (mkMemberList G GI (Some d) OV) st, out)
    | Ok members =>
        (Ok tt,
         mk gi ci (mkMemberList G GI
           (Some (sort_by String.ltb
                    (display_name (dict_of_list (λ m, user_id (m_user m)) nick members))
                  <$> d)) OV) st,
         out)
    end.
Proof.
  unfold _sort_groups. proc_unfold. simpl.
  by destruct (storage_get_member_data E gi).
Qed.

Lemma bind_ok {S A B} (m : Proc.M S A) (k : A → Proc.M S B) s out a s' out' :
  m s out = (Ok a, s', out') → Proc.bind m k s out = k a s' out'.
Proof. unfold Proc.bind. by intros ->. Qed.

Lemma bind_err {S A B} (m : Proc.M S A) (k : A → Proc.M S B) s out e s' out' :
  m s out = (Err e, s', out') → Proc.bind m k s out = (Err e, s', out').
Proof. unfold Proc.bind. by intros ->. Qed.

Lemma _pass_1_cons p ps g out :
  _pass_1 E (p :: ps) g out =
    match py_int (user_id (user p)) with
    | Err e => (Err e, g, out)
    | Ok member_id =>
        match result_mapM py_int (roles p) with
        | Err e => (Err e, g, out)
        | Ok member_roles =>
            match get_permissions E member_id (channel_id g) with
            | Err e => (Err e, g, out)
            | Ok perms =>
                if read_messages E perms then
                  Proc.bind
                    (if String.eqb (status p) "offline"
                     then Proc.ret (SimpleGroup "offline")
                     else _calc_member_group member_roles (status p))
                    (λ group_id,
                       Proc.bind (data_append group_id p) (λ _, _pass_1 E ps))
                    g out
                else _pass_1 E ps g out
            end
        end
    end.
Proof.
  simpl. unfold Proc.bind at 1 2 3 4. unfold Proc.lift, Proc.get.
  destruct (py_int (user_id (user p))); [|done].
  destruct (result_mapM py_int (roles p)); [|done].
  destruct (get_permissions E _ (channel_id g)); [|done].
  by destruct (read_messages E _).
Qed.

Lemma _calc_member_group_eq member_roles st gi ci G GI D OV ss out :
  _calc_member_group member_roles st (mk gi ci (mkMemberList (Some G) GI D OV) ss) out =
    match first_entitled G member_roles with
    | Err e => (Err e, mk gi ci (mkMemberList (Some G) GI D OV) ss, out)
    | Ok found =>
        (Ok (default (_to_simple_group st) found),
         mk gi ci (mkMemberList (Some G) GI D OV) ss, out)
    end.
Proof.
  unfold _calc_member_group. proc_unfold. simpl.
  by destruct (first_entitled G member_roles) as [[?|]|].
Qed.

Lemma data_append_eq group_id p gi ci G GI d OV ss out :
  data_append group_id p (mk gi ci (mkMemberList G GI (Some d) OV) ss) out =
    match d !! group_id with
    | None => (Err KeyError, mk gi ci (mkMemberList G GI (Some d) OV) ss, out)
    | Some bucket =>
        (Ok tt,
         mk gi ci (mkMemberList G GI (Some (<[group_id := bucket ++ [p]]> d)) OV) ss, out)
    end.
Proof.
  unfold data_append. proc_unfold. simpl. by destruct (d !! group_id).
Qed.


Lemma pass_1_grows_refl chan ps d : pass_1_grows E chan ps d d.
Proof.
  split; [done|]. intros k l' Hk. exists l', []. by rewrite app_nil_r.
Qed.

Lemma pass_1_grows_skip chan p ps d d' :
  pass_1_grows E chan ps d d' → pass_1_grows E chan (p :: ps) d d'.
Proof.
  intros [Hdom Hadd]. split; [done|].
  intros k l' Hk. destruct (Hadd k l' Hk) as (l0 & added & ? & ? & ? & Hin).
  exists l0, added. split_and!; [done..|].
  eapply Forall_impl; [exact Hin|]. intros q Hq. by right.
Qed.

Lemma pass_1_grows_append chan p ps d d' group_id bucket :
  d !! group_id = Some bucket → permitted E chan p →
  pass_1_grows E chan ps (<[group_id := bucket ++ [p]]> d) d' →
  pass_1_grows E chan (p :: ps) d d'.
Proof.
  intros Hb Hp [Hdom Hadd]. split.
  - intros k. rewrite Hdom. destruct (decide (group_id = k)) as [->|Hne].
    + rewrite lookup_insert_eq, Hb. split; eauto.
    + by rewrite lookup_insert_ne.
  - intros k l' Hk. destruct (Hadd k l' Hk) as (l0 & added & Hl0 & -> & Hperm' & Hin).
    destruct (decide (group_id = k)) as [->|Hne].
    + rewrite lookup_insert_eq in Hl0. injection Hl0 as <-.
      exists bucket, (p :: added). split_and!.
      * done.
      * by rewrite <- app_assoc.
      * by constructor.
      * constructor; [by left|].
        eapply Forall_impl; [exact Hin|]. intros q Hq. by right.
    + rewrite lookup_insert_ne in Hl0 by done.
      exists l0, added. split_and!; [done..|].
      eapply Forall_impl; [exact Hin|]. intros q Hq. by right.
Qed.

(** [_pass_1] only touches [data], and its outcome does not depend on
    [group_info], [overwrites], the subscriptions or the events sent
    so far. *)
Lemma _pass_1_spec ps : ∀ gi ci G d,
  ∃ r d',
    (∀ GI OV st out,
       _pass_1 E ps (mk gi ci (mkMemberList (Some G) GI (Some d) OV) st) out
       = (r, mk gi ci (mkMemberList (Some G) GI (Some d') OV) st, out))
    ∧ pass_1_grows E ci ps d d'.
Proof.
  induction ps as [|p ps IH]; intros gi ci G d.
  { exists (Ok tt), d. split; [done|apply pass_1_grows_refl]. }
  assert (Happend : ∀ group_id, permitted E ci p → ∃ r d',
    (∀ GI OV st out,
       Proc.bind (data_append group_id p) (λ _, _pass_1 E ps)
         (mk gi ci (mkMemberList (Some G) GI (Some d) OV) st) out
       = (r, mk gi ci (mkMemberList (Some G) GI (Some d') OV) st, out))
    ∧ pass_1_grows E ci (p :: ps) d d').
  { intros group_id Hp.
    destruct (d !! group_id) as [bucket|] eqn:Hb.
    - destruct (IH gi ci G (<[group_id := bucket ++ [p]]> d)) as (r & d' & Hrun & Hg).
      exists r, d'. split; [|by eapply pass_1_grows_append].
      intros GI OV st out. erewrite bind_ok; [apply Hrun|].
      by rewrite data_append_eq, Hb.
    - exists (Err KeyError), d. split; [|apply pass_1_grows_refl].
      intros GI OV st out. erewrite bind_err; [done|].
      by rewrite data_append_eq, Hb. }
  destruct (py_int (user_id (user p))) as [member_id|e] eqn:Hid; last first.
  { exists (Err e), d. split; [|apply pass_1_grows_refl].
    intros. by rewrite _pass_1_cons, Hid. }
  destruct (result_mapM py_int (roles p)) as [member_roles|e] eqn:Hroles; last first.
  { exists (Err e), d. split; [|apply pass_1_grows_refl].
    intros. by rewrite _pass_1_cons, Hid, Hroles. }
  destruct (get_permissions E member_id ci) as [perms|e] eqn:Hperm; last first.
  { exists (Err e), d. split; [|apply pass_1_grows_refl].
    intros. rewrite _pass_1_cons, Hid, Hroles. simpl. by rewrite Hperm. }
  destruct (read_messages E perms) eqn:Hread; last first.
  { destruct (IH gi ci G d) as (r & d' & Hrun & Hg).
    exists r, d'. split; [|by apply pass_1_grows_skip].
    intros. rewrite _pass_1_cons, Hid, Hroles. simpl. rewrite Hperm, Hread. apply Hrun. }
  assert (Hp : permitted E ci p) by (by exists member_id, perms).
  destruct (String.eqb (status p) "offline") eqn:Hoff.
  { destruct (Happend (SimpleGroup "offline") Hp) as (r & d' & Hrun & Hg).
    exists r, d'. split; [|done].
    intros. rewrite _pass_1_cons, Hid, Hroles. simpl. rewrite Hperm, Hread, Hoff.
    erewrite bind_ok; [apply Hrun|done]. }
  destruct (first_entitled G member_roles) as [found|e] eqn:Hfound.
  - destruct (Happend (default (_to_simple_group (status p)) found) Hp)
      as (r & d' & Hrun & Hg).
    exists r, d'. split; [|done].
    intros. rewrite _pass_1_cons, Hid, Hroles. simpl. rewrite Hperm, Hread, Hoff.
    erewrite bind_ok; [apply Hrun|]. by rewrite _calc_member_group_eq, Hfound.
  - exists (Err e), d. split; [|apply pass_1_grows_refl].
    intros. rewrite _pass_1_cons, Hid, Hroles. simpl. rewrite Hperm, Hread, Hoff.
    erewrite bind_err; [done|]. by rewrite _calc_member_group_eq, Hfound.
Qed.
End BuildSteps.

Section BuildOutcome.
Context (E : Env).



(** A build that returns leaves the two synthetic groups, sorted
    buckets of permitted presences, and nothing of what was stored
    before; run again on any object of the same guild and channel it
    returns the same list. *)
Lemma _init_member_list_ok g out g1 out1 :
  _init_member_list E g out = (Ok tt, g1, out1) →
  ∃ ids ps ov d members,
    storage_get_member_ids E (guild_id g) = Ok ids
    ∧ presence_guild_presences E ids (guild_id g) = Ok ps
    ∧ storage_get_member_data E (guild_id g) = Ok members
    ∧ pass_1_grows E (channel_id g) ps fresh_buckets d
    ∧ g1 = mk (guild_id g) (channel_id g)
             (mkMemberList (Some [Info online_group; Info offline_group]) (Some ∅)
                (Some (sort_buckets members d)) (Some ov))
             (state g)
    ∧ out1 = out
    ∧ (∀ g' out', guild_id g' = guild_id g → channel_id g' = channel_id g →
         _init_member_list E g' out' = (Ok tt, set_mlist (λ _, mlist g1) g', out')).
Proof.
  intros H. rewrite _init_member_list_eq in H.
  destruct g as [gi ci l st]. simpl in H.
  destruct (storage_get_member_ids E gi) as [ids|] eqn:Hids; [|done].
  destruct (presence_guild_presences E ids gi) as [ps|] eqn:Hps; [|done].
  rewrite set_groups_eq, get_roles_eq in H. simpl in H.
  destruct (storage_fetch_roles E gi) as [rows|] eqn:Hrows; [|done].
  destruct (storage_chan_overwrites E ci) as [ovs|] eqn:Hovs; [|done].
  destruct (overwrites_by_id ∅ ovs) as [ov|] eqn:Hov; [|done].
  simpl in H.
  destruct (readable_hoisted E ov rows) as [|r rs] eqn:Hrg; [|done].
  simpl in H.
  destruct (_pass_1_spec E ps gi ci [Info online_group; Info offline_group] fresh_buckets)
    as (r & d & Hrun & Hgrow).
  unfold Proc.bind, set_mlist, set_data_field, with_groups in H. simpl in H.
  change (dict_of_list (λ k : GroupID, k) (λ _ : GroupID, [])
            [SimpleGroup "online"; SimpleGroup "offline"]) with fresh_buckets in H.
  rewrite Hrun in H. destruct r as [[]|]; [|done].
  rewrite _sort_groups_eq in H.
  destruct (storage_get_member_data E gi) as [members|] eqn:Hmem; [|done].
  injection H as <- <-.
  exists ids, ps, ov, d, members. split_and!; try done.
  intros [gi' ci' l' st'] out'. simpl. intros -> ->.
  rewrite _init_member_list_eq. simpl. rewrite Hids, Hps.
  rewrite set_groups_eq, get_roles_eq. simpl. rewrite Hrows, Hovs, Hov. simpl.
  rewrite Hrg. simpl.
  unfold Proc.bind, set_mlist, set_data_field, with_groups. simpl.
  change (dict_of_list (λ k : GroupID, k) (λ _ : GroupID, [])
            [SimpleGroup "online"; SimpleGroup "offline"]) with fresh_buckets.
  rewrite Hrun, _sort_groups_eq, Hmem. done.
Qed.
End BuildOutcome.

(** ** Python slices *)

Lemma py_slice_nonneg {A} (l : list A) (start stop : Z) :
  0 ≤ start ≤ stop →
  py_slice l start stop = take (Z.to_nat (stop - start)) (drop (Z.to_nat start) l).
Proof.
  intros [H0 Hle]. unfold py_slice, slice_bound.
  destruct (Z.ltb_spec start 0) as [|_]; [lia|].
  destruct (Z.ltb_spec stop 0) as [|_]; [lia|].
  destruct (Z.le_gt_cases (Z.of_nat (length l)) start) as [Hbig|Hsmall].
  - rewrite (drop_ge l (Z.to_nat (start `min` Z.of_nat (length l)))) by lia.
    rewrite (drop_ge l (Z.to_nat start)) by lia.
    by rewrite !take_nil.
  - replace (start `min` Z.of_nat (length l)) with start by lia.
    destruct (Z.le_gt_cases stop (Z.of_nat (length l))) as [Hin|Hout].
    + by replace (stop `min` Z.of_nat (length l)) with stop by lia.
    + replace (stop `min` Z.of_nat (length l)) with (Z.of_nat (length l)) by lia.
      rewrite !take_ge; [done|rewrite length_drop; lia|rewrite length_drop; lia].
Qed.

(** ** Ready lists and their flat item sequence *)

Section Ready.


Lemma ready_list_bool l : ready l → list_bool l = true.
Proof. by intros (gs & gi & d & ov & -> & _). Qed.

Lemma list_iter_Info gs GI d OV :
  (∀ g, g ∈ gs → is_Some (d !! gid g)) →
  ∃ gps,
    list_iter (mkMemberList (Some (Info <$> gs)) GI (Some d) OV) = Ok gps
    ∧ gps.*1 = gs
    ∧ Forall (λ gp, d !! gid gp.1 = Some gp.2) gps.
Proof.
  intros Hd.
  assert (∃ gps,
    result_mapM (λ e,
      match e with
      | BareId _ => Err AttributeError
      | Info g =>
          match d !! gid g with
          | Some ps => Ok (g, ps)
          | None => Err KeyError
          end
      end) (Info <$> gs) = Ok gps
    ∧ gps.*1 = gs ∧ Forall (λ gp, d !! gid gp.1 = Some gp.2) gps)
    as (gps & Hrun & Hfst & Hall).
  { induction gs as [|g gs IH]; csimpl.
    - by exists [].
    - destruct IH as (gps & -> & Hfst & Hall).
      { intros g' Hg'. apply Hd. by right. }
      destruct (Hd g) as [ps Hps]; [by left|]. rewrite Hps. simpl.
      exists ((g, ps) :: gps). csimpl. rewrite Hfst. split_and!; [done..|].
      by constructor. }
  exists gps. split_and!; [|done..].
  unfold list_iter. simpl. destruct gs; [by destruct gps|exact Hrun].
Qed.

Lemma length_group_items (gps : list (GroupInfo * list Presence)) :
  length (concat (group_items <$> gps))
  = sum_list_with (λ gp, S (length gp.2)) gps.
Proof.
  induction gps as [|gp gps IH]; csimpl; [done|].
  rewrite length_app, length_fmap, IH. done.
Qed.

Lemma items_set_state f g : items (set_state f g) = items g.
Proof. done. Qed.

Lemma ready_items g :
  ready (mlist g) →
  ∃ gps gs,
    groups (mlist g) = Some (Info <$> gs)
    ∧ list_iter (mlist g) = Ok gps
    ∧ gps.*1 = gs
    ∧ Forall (λ gp, ∃ d, data (mlist g) = Some d ∧ d !! gid gp.1 = Some gp.2) gps
    ∧ items g = Ok (concat (group_items <$> gps)).
Proof.
  intros (gs & gi & d & ov & Hl & Hd).
  destruct (list_iter_Info gs (Some gi) d (Some ov) Hd) as (gps & Hiter & Hfst & Hall).
  exists gps, gs. unfold items. rewrite Hl, Hiter. simpl. split_and!; try done.
  eapply Forall_impl; [exact Hall|]. intros gp Hgp. by exists d.
Qed.
End Ready.

Section BuiltIsReady.
Context (E : Env).

Lemma pass_1_grows_fresh chan ps d g :
  pass_1_grows E chan ps fresh_buckets d →
  g ∈ [online_group; offline_group] → is_Some (d !! gid g).
Proof.
  intros [Hdom _] Hg. apply Hdom.
  apply list_elem_of_In in Hg. destruct Hg as [<-|[<-|[]]]; by eexists.
Qed.

Lemma built_ready g out g1 out1 :
  _init_member_list E g out = (Ok tt, g1, out1) → ready (mlist g1).
Proof.
  intros H. apply _init_member_list_ok in H
    as (ids & ps & ov & d & members & _ & _ & _ & Hgrow & -> & _).
  exists [online_group; offline_group], ∅, (sort_buckets members d), ov.
  split; [done|]. intros gr Hgr. unfold sort_buckets. rewrite lookup_fmap.
  destruct (pass_1_grows_fresh _ _ _ _ Hgrow Hgr) as [l ->]. by eexists.
Qed.

Lemma _init_check_ready g out g1 out1 :
  store_inv g → _init_check E g out = (Ok tt, g1, out1) →
  ready (mlist g1) ∧ out1 = out ∧ state g1 = state g
  ∧ guild_id g1 = guild_id g ∧ channel_id g1 = channel_id g.
Proof.
  intros Hinv. unfold _init_check. proc_unfold.
  destruct (list_bool (mlist g)) eqn:Hb.
  - intros [= <- <-]. split_and!; [by apply Hinv|done..].
  - intros H. split; [by eapply built_ready|].
    apply _init_member_list_ok in H as (? & ? & ? & ? & ? & _ & _ & _ & _ & -> & -> & _).
    done.
Qed.
End BuiltIsReady.

(** ** Subscriptions *)


Section Subscriptions.
Context (E : Env).

Lemma state_get_add sid' sid r st :
  state_get sid' (state_add sid r st)
  = if decide (sid' = sid)
    then Some ({[ r ]} ∪ default ∅ (state_get sid st))
    else state_get sid' st.
Proof.
  induction st as [|[k rs] st IH]; simpl.
  - destruct (decide (sid = sid')), (decide (sid' = sid)); try congruence.
    by rewrite union_empty_r_L.
  - destruct (decide (k = sid)) as [->|Hk]; simpl.
    + destruct (decide (sid = sid')), (decide (sid' = sid)); congruence.
    + destruct (decide (k = sid')) as [->|Hk'].
      * destruct (decide (sid' = sid)); congruence.
      * exact IH.
Qed.

Lemma state_get_record sid' sid rs : ∀ st,
  state_get sid' (record_ranges sid rs st)
  = if decide (sid' = sid)
    then match rs with
         | [] => state_get sid st
         | _ :: _ => Some (list_to_set rs ∪ default ∅ (state_get sid st))
         end
    else state_get sid' st.
Proof.
  unfold record_ranges.
  induction rs as [|r rs IH]; intros st; simpl.
  - by destruct (decide (sid' = sid)) as [->|].
  - rewrite IH. destruct (decide (sid' = sid)) as [->|Hne].
    + rewrite state_get_add. rewrite decide_True by done. simpl.
      destruct rs as [|r' rs]; simpl; f_equal; apply set_eq; intros x;
        rewrite !elem_of_union, ?elem_of_singleton, ?elem_of_empty; tauto.
    + rewrite state_get_add. by rewrite decide_False.
Qed.

Lemma recorded_record sid rs g r :
  r ∈ recorded sid (set_state (record_ranges sid rs) g)
  ↔ r ∈ recorded sid g ∨ r ∈ rs.
Proof.
  unfold recorded. simpl. rewrite state_get_record, decide_True by done.
  destruct rs as [|r' rs]; simpl.
  - rewrite elem_of_nil. tauto.
  - rewrite elem_of_union, elem_of_union, elem_of_singleton, elem_of_list_to_set.
    rewrite !elem_of_cons. tauto.
Qed.

Lemma to_dict_sync its r : to_dict (sync_op its r) = Ok (sync_dict its r).
Proof. done. Qed.

Lemma mapM_to_dict_sync its rs :
  result_mapM to_dict (sync_op its <$> rs) = Ok (sync_dict its <$> rs).
Proof.
  induction rs as [|r rs IH]; [done|].
  rewrite !fmap_cons. cbn [result_mapM]. rewrite to_dict_sync, IH. done.
Qed.

(** The loop of [shard_query]: every valid range is recorded and
    yields its SYNC, the other ranges are passed over. *)
Lemma sync_ranges_spec sid its ranges : ∀ ops g out,
  items g = Ok its →
  sync_ranges sid ranges ops g out
  = (Ok (ops ++ (sync_op its <$> filter valid_range ranges)),
     set_state (record_ranges sid (filter valid_range ranges)) g, out).
Proof.
  induction ranges as [|[start end_] ranges IH]; intros ops g out Hits; simpl.
  { rewrite app_nil_r. by destruct g. }
  destruct (Z.ltb_spec (end_ - start) 0) as [Hneg|Hok].
  - rewrite filter_cons_False by (unfold valid_range; simpl; lia).
    by apply IH.
  - rewrite filter_cons_True by (unfold valid_range; simpl; lia).
    proc_unfold. rewrite items_set_state, Hits.
    rewrite IH by (by rewrite items_set_state).
    csimpl. rewrite <- app_assoc. by destruct g.
Qed.

(** [_dispatch_sess] to one session that the state manager knows. *)
Lemma _dispatch_sess_one sid ops dicts g out st gps :
  list_iter (mlist g) = Ok gps →
  result_mapM to_dict ops = Ok dicts →
  fetch_raw E sid = Some st →
  (∀ p, ws_dispatch E st "GUILD_MEMBER_LIST_UPDATE" p = Ok tt) →
  _dispatch_sess E (SessionList [sid]) ops g out
  = (Ok [session_id st], g,
     out ++ [(sid, "GUILD_MEMBER_LIST_UPDATE",
              mkPayload (list_id g) (py_str (guild_id g))
                ((λ gp, (gid gp.1, length gp.2)) <$> gps) dicts)]).
Proof.
  intros Hiter Hops Hst Hws.
  unfold _dispatch_sess. proc_unfold. rewrite Hiter, Hops. simpl.
  proc_unfold. unfold get_state. rewrite Hst. proc_unfold. by rewrite Hws.
Qed.

(** [shard_query] past the redirection test, for a live session. *)
Lemma shard_query_here_spec sid ranges g out g1 out1 st :
  store_inv g →
  _init_check E g out = (Ok tt, g1, out1) →
  fetch_raw E sid = Some st →
  (∀ p, ws_dispatch E st "GUILD_MEMBER_LIST_UPDATE" p = Ok tt) →
  ∃ its payload,
    items g1 = Ok its
    ∧ shard_query_here E sid ranges g out
      = (Ok tt, set_state (record_ranges sid (filter valid_range ranges)) g1,
         out ++ [(sid, "GUILD_MEMBER_LIST_UPDATE", payload)])
    ∧ payload_ops payload = sync_dict its <$> filter valid_range ranges.
Proof.
  intros Hinv Hcheck Hst Hws.
  destruct (_init_check_ready E g out g1 out1 Hinv Hcheck) as (Hready & -> & _).
  destruct (ready_items g1 Hready) as (gps & gs & _ & Hiter & _ & _ & Hits).
  eexists _, _. split; [exact Hits|].
  unfold shard_query_here.
  erewrite bind_ok; [|exact Hcheck].
  erewrite bind_ok; [|by apply sync_ranges_spec].
  erewrite bind_ok; [|eapply _dispatch_sess_one; [exact Hiter|apply mapM_to_dict_sync|done..]].
  done.
Qed.
End Subscriptions.


(** ** Build failures *)

Section BuildFailure.
Context (E : Env).



Lemma build_frame g out r g' out' :
  _init_member_list E g out = (r, g', out') →
  out' = out ∧ state g' = state g
  ∧ guild_id g' = guild_id g ∧ channel_id g' = channel_id g.
Proof.
  rewrite _init_member_list_eq. destruct g as [gi ci l st]. simpl.
  destruct (storage_get_member_ids E gi) as [ids|]; [|by intros [= <- <- <-]].
  destruct (presence_guild_presences E ids gi) as [ps|]; [|by intros [= <- <- <-]].
  rewrite set_groups_eq, get_roles_eq. simpl.
  destruct (storage_fetch_roles E gi) as [rows|]; [|by intros [= <- <- <-]].
  destruct (storage_chan_overwrites E ci) as [ovs|]; [|by intros [= <- <- <-]].
  destruct (overwrites_by_id ∅ ovs) as [ov|]; [|by intros [= <- <- <-]].
  simpl.
  destruct (result_mapM attr_gid _) as [gids|]; [|by intros [= <- <- <-]].
  unfold with_groups, set_mlist, set_data_field. simpl.
  match goal with
  | |- context [dict_of_list ?k ?v gids] =>
      destruct (_pass_1_spec E ps gi ci
                  ((BareId <$> (gid <$> readable_hoisted E ov rows))
                     ++ [Info online_group; Info offline_group])
                  (dict_of_list k v gids)) as (r1 & d & Hrun & _)
  end.
  unfold Proc.bind. rewrite Hrun.
  destruct r1 as [[]|]; [|by intros [= <- <- <-]].
  rewrite _sort_groups_eq.
  destruct (storage_get_member_data E gi); by intros [= <- <- <-].
Qed.

(** When one of the four fetches fails the build raises with the
    object as it was. *)
Lemma build_fetch_failed g out :
  fetch_failed E g → ∃ e, _init_member_list E g out = (Err e, g, out).
Proof.
  intros Hf. rewrite _init_member_list_eq.
  destruct (storage_get_member_ids E (guild_id g)) as [ids|e0] eqn:Hids; [|by eexists].
  destruct (presence_guild_presences E ids (guild_id g)) as [ps|e0] eqn:Hps; [|by eexists].
  rewrite set_groups_eq, get_roles_eq.
  destruct (storage_fetch_roles E (guild_id g)) as [rows|e0] eqn:Hrows; [|by eexists].
  destruct (storage_chan_overwrites E (channel_id g)) as [ovs|e0] eqn:Hovs; [|by eexists].
  destruct Hf as [[e ?]|[(ids' & e & ? & ?)|[[e ?]|[e ?]]]]; congruence.
Qed.

(** Once the build has got to [_pass_1], all four fields are set,
    however it ends. *)
Lemma build_reaches_pass_1 g out r g' out' :
  reaches_pass_1 E g →
  _init_member_list E g out = (r, g', out') →
  ready (mlist g').
Proof.
  intros (ids & ps & rows & ovs & ov & Hids & Hps & Hrows & Hovs & Hov & Hrg).
  rewrite _init_member_list_eq. destruct g as [gi ci l st]. simpl in *.
  rewrite Hids, Hps, set_groups_eq, get_roles_eq. simpl.
  rewrite Hrows, Hovs, Hov. simpl. rewrite Hrg. simpl.
  destruct (_pass_1_spec E ps gi ci [Info online_group; Info offline_group] fresh_buckets)
    as (r1 & d & Hrun & Hgrow).
  unfold Proc.bind, set_mlist, set_data_field, with_groups. simpl.
  change (dict_of_list (λ k : GroupID, k) (λ _ : GroupID, [])
            [SimpleGroup "online"; SimpleGroup "offline"]) with fresh_buckets.
  rewrite Hrun.
  assert (Hd : ∀ gr, gr ∈ [online_group; offline_group] → is_Some (d !! gid gr))
    by (intros gr; by eapply pass_1_grows_fresh).
  destruct r1 as [[]|].
  - rewrite _sort_groups_eq. destruct (storage_get_member_data E gi) as [members|].
    + intros [= <- <- <-]. eexists [online_group; offline_group], _, _, _.
      split; [done|]. intros gr Hgr. rewrite lookup_fmap.
      destruct (Hd gr Hgr) as [? ->]. by eexists.
    + intros [= <- <- <-]. by eexists [online_group; offline_group], _, _, _.
  - intros [= <- <- <-]. by eexists [online_group; offline_group], _, _, _.
Qed.

End BuildFailure.

(** ** Permission gating (C5) *)

Lemma fresh_buckets_lookup k l : fresh_buckets !! k = Some l → l = [].
Proof.
  unfold fresh_buckets, dict_of_list. simpl.
  rewrite !lookup_insert. repeat case_decide; try congruence.
  by rewrite lookup_empty.
Qed.

Lemma built_bucket_permitted E g out g1 out1 d k bucket p :
  _init_member_list E g out = (Ok tt, g1, out1) →
  data (mlist g1) = Some d → d !! k = Some bucket → p ∈ bucket →
  permitted E (channel_id g1) p.
Proof.
  intros H Hd Hk Hp.
  apply _init_member_list_ok in H
    as (ids & ps & ov & d0 & members & _ & _ & _ & [_ Hgrow] & -> & _).
  simpl in *. injection Hd as <-.
  unfold sort_buckets in Hk. rewrite lookup_fmap in Hk.
  destruct (d0 !! k) as [l'|] eqn:Hl'; [|done]. injection Hk as <-.
  apply sort_by_elem_of in Hp.
  destruct (Hgrow k l' Hl') as (l0 & added & Hl0 & -> & Hperm & _).
  apply fresh_buckets_lookup in Hl0 as ->. simpl in Hp.
  rewrite Forall_forall in Hperm. by apply Hperm.
Qed.

(** C5: in a list that a build returned, a member whose channel
    permission, as [get_permissions] resolves it, does not grant
    read-messages is in no bucket, whatever the group. *)
Theorem permission_gating E g out g1 out1 d p member_id perms :
  _init_member_list E g out = (Ok tt, g1, out1) →
  data (mlist g1) = Some d →
  py_int (user_id (user p)) = Ok member_id →
  get_permissions E member_id (channel_id g1) = Ok perms →
  read_messages E perms = false →
  ∀ k bucket, d !! k = Some bucket → p ∉ bucket.
Proof.
  intros H Hd Hid Hperm Hread k bucket Hk Hp.
  destruct (built_bucket_permitted E g out g1 out1 d k bucket p H Hd Hk Hp)
    as (member_id' & perms' & Hid' & Hperm' & Hread').
  congruence.
Qed.

Lemma permission_gating_witness :
  let res := _init_member_list Scenario.gated Scenario.fresh [] in
  ∃ d, data (mlist res.1.2) = Some d
       ∧ ∀ k bucket, d !! k = Some bucket → Scenario.carl ∉ bucket.
Proof.
  intros res. eexists. split; [vm_compute; reflexivity|].
  apply (permission_gating Scenario.gated Scenario.fresh [] res.1.2 [] _ Scenario.carl 3 0).
  - vm_compute. reflexivity.
  - vm_compute. reflexivity.
  - reflexivity.
  - reflexivity.
  - reflexivity.
Defined.

(** ** Flat-index consistency (C4) *)

(** C4: the flat sequence of a built list is, group after group in the
    order of the group list, one header and then the bucket, so that its
    length is the sum of [1 + len(bucket)]; and a query for ranges gets,
    for each range it does not skip, a SYNC whose items are the Python
    slice of that sequence, which for [0 <= start <= end] is the window
    of the [end - start] items from position [start] on. *)
Theorem flat_index_consistency E g out g1 out1 :
  _init_member_list E g out = (Ok tt, g1, out1) →
  ∃ gps its,
    groups (mlist g1) = Some (Info <$> gps.*1)
    ∧ Forall (λ gp, ∃ d, data (mlist g1) = Some d ∧ d !! gid gp.1 = Some gp.2) gps
    ∧ items g1 = Ok its
    ∧ its = concat ((λ gp, GroupItem (gid gp.1) (length gp.2) :: (MemberItem <$> gp.2)) <$> gps)
    ∧ length its = sum_list_with (λ gp, S (length gp.2)) gps
    ∧ (∀ sid ranges st out',
         fetch_raw E sid = Some st →
         (∀ p, ws_dispatch E st "GUILD_MEMBER_LIST_UPDATE" p = Ok tt) →
         ∃ g2 payload,
           shard_query_here E sid ranges g1 out'
           = (Ok tt, g2, out' ++ [(sid, "GUILD_MEMBER_LIST_UPDATE", payload)])
           ∧ payload_ops payload = sync_dict its <$> filter valid_range ranges)
    ∧ (∀ start stop, 0 ≤ start ≤ stop →
         py_slice its start stop
         = take (Z.to_nat (stop - start)) (drop (Z.to_nat start) its)).
Proof.
  intros H. pose proof (built_ready E g out g1 out1 H) as Hready.
  destruct (ready_items g1 Hready) as (gps & gs & Hgs & Hiter & Hfst & Hall & Hits).
  exists gps, (concat (group_items <$> gps)). split_and!.
  - by rewrite Hfst.
  - exact Hall.
  - exact Hits.
  - done.
  - apply length_group_items.
  - intros sid ranges st out' Hst Hws.
    assert (Hcheck : _init_check E g1 out' = (Ok tt, g1, out')).
    { unfold _init_check. proc_unfold. by rewrite (ready_list_bool _ Hready). }
    destruct (shard_query_here_spec E sid ranges g1 out' g1 out' st) as (its' & payload & Hits' & Hrun & Hops);
      [by intros _|done..|].
    rewrite Hits in Hits'. injection Hits' as <-.
    by eexists _, payload.
  - intros start stop Hle. by apply py_slice_nonneg.
Qed.

Lemma flat_index_consistency_witness :
  let res := _init_member_list Scenario.plain Scenario.fresh [] in
  ∃ gps its,
    groups (mlist res.1.2) = Some (Info <$> gps.*1)
    ∧ Forall (λ gp, ∃ d, data (mlist res.1.2) = Some d ∧ d !! gid gp.1 = Some gp.2) gps
    ∧ items res.1.2 = Ok its
    ∧ its = concat ((λ gp, GroupItem (gid gp.1) (length gp.2) :: (MemberItem <$> gp.2)) <$> gps)
    ∧ length its = sum_list_with (λ gp, S (length gp.2)) gps
    ∧ (∀ sid ranges st out',
         fetch_raw Scenario.plain sid = Some st →
         (∀ p, ws_dispatch Scenario.plain st "GUILD_MEMBER_LIST_UPDATE" p = Ok tt) →
         ∃ g2 payload,
           shard_query_here Scenario.plain sid ranges res.1.2 out'
           = (Ok tt, g2, out' ++ [(sid, "GUILD_MEMBER_LIST_UPDATE", payload)])
           ∧ payload_ops payload = sync_dict its <$> filter valid_range ranges)
    ∧ (∀ start stop, 0 ≤ start ≤ stop →
         py_slice its start stop
         = take (Z.to_nat (stop - start)) (drop (Z.to_nat start) its)).
Proof.
  intros res.
  apply (flat_index_consistency Scenario.plain Scenario.fresh [] res.1.2 []).
  vm_compute. reflexivity.
Defined.

(** ** Subscribing to ranges (C7) *)

Lemma on_gml_eq {A} chan (m : Proc.M t A) lg out g r g' out' :
  LazyGuildDispatcher.state lg !! chan = Some g →
  m g out = (r, g', out') →
  LazyGuildDispatcher.on_gml chan m lg out
  = (r, LazyGuildDispatcher.mk (<[chan := g']> (LazyGuildDispatcher.state lg))
          (LazyGuildDispatcher.guild_map lg), out').
Proof. intros Hg Hm. unfold LazyGuildDispatcher.on_gml. by rewrite Hg, Hm. Qed.

(** C7: a [shard_query] that is not redirected to the 'everyone' list,
    on an object whose readiness check passes and for a session the
    state manager knows.  The flat sequence [its] of the list is, group
    after group in the order of the group list, one header and then the
    bucket of the group.  The call records each range with
    [end >= start] under the session, passes over the others without
    stopping, leaves every other session's ranges alone, and sends the
    session one event, and nobody else any: its operations are one SYNC
    per recorded range, in request order, each with the range and with
    the slice [its[start:end]], which for [0 <= start <= end] is the
    window of [end - start] items of [its] from position [start] on. *)
Theorem subscribe_range_handling E fuel chan sid ranges lg out g g1 out1 perms st :
  LazyGuildDispatcher.state lg !! chan = Some g →
  store_inv g →
  role_permissions E (guild_id g) (guild_id g) (channel_id g) = Ok perms →
  read_messages E perms && negb (String.eqb (list_id g) "everyone") = false →
  _init_check E g out = (Ok tt, g1, out1) →
  fetch_raw E sid = Some st →
  (∀ p, ws_dispatch E st "GUILD_MEMBER_LIST_UPDATE" p = Ok tt) →
  ∃ gps g2,
    groups (mlist g1) = Some (Info <$> gps.*1)
    ∧ Forall (λ gp, ∃ d, data (mlist g1) = Some d ∧ d !! gid gp.1 = Some gp.2) gps
    ∧ let its :=
        concat ((λ gp, GroupItem (gid gp.1) (length gp.2) :: (MemberItem <$> gp.2)) <$> gps) in
      items g1 = Ok its
      ∧ LazyGuildDispatcher.shard_query E (S fuel) chan sid ranges lg out
        = (Ok tt,
           LazyGuildDispatcher.mk (<[chan := g2]> (LazyGuildDispatcher.state lg))
             (LazyGuildDispatcher.guild_map lg),
           out ++ [(sid, "GUILD_MEMBER_LIST_UPDATE",
                    mkPayload (list_id g) (py_str (guild_id g))
                      ((λ gp, (gid gp.1, length gp.2)) <$> gps)
                      ((λ r, mkOpDict "SYNC" (Some (py_slice its r.1 r.2)) (Some r) None None)
                         <$> filter (λ r, r.1 ≤ r.2) ranges))])
      ∧ (∀ start stop, 0 ≤ start ≤ stop →
           py_slice its start stop
           = take (Z.to_nat (stop - start)) (drop (Z.to_nat start) its))
      ∧ mlist g2 = mlist g1
      ∧ (∀ r, r ∈ recorded sid g2 ↔ r ∈ recorded sid g ∨ (r ∈ ranges ∧ r.1 ≤ r.2))
      ∧ (∀ sid', sid' ≠ sid → state_get sid' (state g2) = state_get sid' (state g)).
Proof.
  intros Hg Hinv Hperm Hhere Hcheck Hst Hws.
  destruct (_init_check_ready E g out g1 out1 Hinv Hcheck)
    as (Hready & -> & Hstate & Hgi & Hci).
  destruct (ready_items g1 Hready) as (gps & gs & Hgs & Hiter & Hfst & Hall & Hits).
  exists gps, (set_state (record_ranges sid (filter valid_range ranges)) g1).
  split; [by rewrite Hfst|]. split; [exact Hall|].
  intros its. split; [exact Hits|]. split; [|split; [|split; [|split]]].
  - simpl. proc_unfold. rewrite Hg, Hperm, Hhere.
    apply (on_gml_eq chan _ lg out g); [done|].
    unfold shard_query_here.
    erewrite bind_ok; [|exact Hcheck].
    erewrite bind_ok; [|by apply sync_ranges_spec].
    erewrite bind_ok;
      [|eapply _dispatch_sess_one; [exact Hiter|apply mapM_to_dict_sync|done..]].
    unfold Proc.ret, list_id. simpl. by rewrite Hgi, Hci.
  - intros start stop Hle. by apply py_slice_nonneg.
  - done.
  - intros r. rewrite recorded_record. unfold recorded. rewrite Hstate.
    rewrite list_elem_of_filter. unfold valid_range. tauto.
  - intros sid' Hne. simpl. rewrite state_get_record, decide_False by done.
    by rewrite Hstate.
Qed.

Lemma subscribe_range_handling_witness :
  let g1 := (_init_check Scenario.plain Scenario.fresh []).1.2 in
  (∃ gps g2,
     groups (mlist g1) = Some (Info <$> gps.*1)
     ∧ Forall (λ gp, ∃ d, data (mlist g1) = Some d ∧ d !! gid gp.1 = Some gp.2) gps
     ∧ let its :=
         concat ((λ gp, GroupItem (gid gp.1) (length gp.2) :: (MemberItem <$> gp.2)) <$> gps) in
       items g1 = Ok its
       ∧ LazyGuildDispatcher.shard_query Scenario.plain 1 20 "s1" [(0, 2); (5, 3); (3, 9)]
           Scenario.registry []
         = (Ok tt,
            LazyGuildDispatcher.mk (<[20 := g2]> (LazyGuildDispatcher.state Scenario.registry))
              (LazyGuildDispatcher.guild_map Scenario.registry),
            [] ++ [("s1", "GUILD_MEMBER_LIST_UPDATE",
                    mkPayload (list_id Scenario.fresh) (py_str (guild_id Scenario.fresh))
                      ((λ gp, (gid gp.1, length gp.2)) <$> gps)
                      ((λ r, mkOpDict "SYNC" (Some (py_slice its r.1 r.2)) (Some r) None None)
                         <$> filter (λ r, r.1 ≤ r.2) [(0, 2); (5, 3); (3, 9)]))])
       ∧ (∀ start stop, 0 ≤ start ≤ stop →
            py_slice its start stop
            = take (Z.to_nat (stop - start)) (drop (Z.to_nat start) its))
       ∧ mlist g2 = mlist g1
       ∧ (∀ r, r ∈ recorded "s1" g2
               ↔ r ∈ recorded "s1" Scenario.fresh
                 ∨ (r ∈ [(0, 2); (5, 3); (3, 9)] ∧ r.1 ≤ r.2))
       ∧ (∀ sid', sid' ≠ "s1" →
            state_get sid' (state g2) = state_get sid' (state Scenario.fresh)))
  ∧ (LazyGuildDispatcher.shard_query Scenario.plain 1 20 "s1" [(0, 2); (5, 3); (3, 9)]
       Scenario.registry []).2
    = [("s1", "GUILD_MEMBER_LIST_UPDATE",
        mkPayload "20" "10" [(SimpleGroup "online", 2%nat); (SimpleGroup "offline", 1%nat)]
          [mkOpDict "SYNC"
             (Some [GroupItem (SimpleGroup "online") 2; MemberItem Scenario.carl])
             (Some (0, 2)) None None;
           mkOpDict "SYNC"
             (Some [GroupItem (SimpleGroup "offline") 1; MemberItem Scenario.bob])
             (Some (3, 9)) None None])].
Proof.
  intros g1. split.
  - apply (subscribe_range_handling Scenario.plain 0 20 "s1" [(0, 2); (5, 3); (3, 9)]
             Scenario.registry [] Scenario.fresh g1 [] 0 (mkSessState "s1")).
    + reflexivity.
    + intros Hb. vm_compute in Hb. discriminate.
    + reflexivity.
    + reflexivity.
    + vm_compute. reflexivity.
    + reflexivity.
    + intros p. reflexivity.
  - vm_compute. reflexivity.
Defined.

(** ** Unsubscribing (C10) *)

Lemma unsub_eq sid g out :
  unsub sid g out
  = (Ok tt,
     match state_pop sid (state g) with
     | [] => mk (guild_id g) (channel_id g) empty_list []
     | _ :: _ => set_state (state_pop sid) g
     end, out).
Proof.
  unfold unsub, _set_empty_list. proc_unfold. simpl.
  destruct (state_pop sid (state g)) eqn:Hpop; [|done].
  unfold set_mlist, set_state. simpl. by rewrite Hpop.
Qed.

Lemma get_gml_registered E chan lg out g :
  LazyGuildDispatcher.state lg !! chan = Some g →
  LazyGuildDispatcher.get_gml E chan lg out = (Ok chan, lg, out).
Proof. intros Hg. unfold LazyGuildDispatcher.get_gml. proc_unfold. by rewrite Hg. Qed.

Lemma sub_frame E sid g out r g1 out1 :
  sub E sid g out = (r, g1, out1) → state g1 = state g ∧ out1 = out.
Proof.
  unfold sub, _init_check. proc_unfold.
  destruct (list_bool (mlist g)).
  - by intros [= <- <- <-].
  - intros H. by destruct (build_frame E _ _ _ _ _ H) as (-> & -> & _).
Qed.

(** C10: [unsub] returns for every session id; [sub] records nothing
    under any session; so an [unsub] on an object whose subscription
    dictionary is empty resets the list, and a list built by [sub] alone
    is dropped by the first [unsub], whichever session it names. *)
Theorem unsub_never_raises E sid sid' g out :
  (∃ g1, unsub sid g out = (Ok tt, g1, out)
         ∧ (state g = [] → mlist g1 = empty_list ∧ state g1 = []))
  ∧ (∀ r g1 out1, sub E sid' g out = (r, g1, out1) → state g1 = state g ∧ out1 = out)
  ∧ (∀ g1 out1, state g = [] → sub E sid' g out = (Ok tt, g1, out1) →
       list_bool (mlist g1) = true
       ∧ ∃ g2, unsub sid g1 out1 = (Ok tt, g2, out1)
               ∧ mlist g2 = empty_list ∧ state g2 = []).
Proof.
  split_and!.
  - eexists. split; [apply unsub_eq|]. intros Hst. by rewrite Hst.
  - intros r g1 out1. apply sub_frame.
  - intros g1 out1 Hst Hsub.
    destruct (sub_frame E _ _ _ _ _ _ Hsub) as [Hst1 ->]. split.
    + revert Hsub. unfold sub, _init_check. proc_unfold.
      destruct (list_bool (mlist g)) eqn:Hb.
      * by intros [= <-].
      * intros H. apply ready_list_bool. by eapply built_ready.
    + eexists. split; [apply unsub_eq|]. by rewrite Hst1, Hst.
Qed.

Lemma unsub_never_raises_witness :
  (∃ g1, unsub "nobody" Scenario.fresh [] = (Ok tt, g1, [])
         ∧ (state Scenario.fresh = [] → mlist g1 = empty_list ∧ state g1 = []))
  ∧ (∀ r g1 out1, sub Scenario.plain "s1" Scenario.fresh [] = (r, g1, out1) →
       state g1 = state Scenario.fresh ∧ out1 = [])
  ∧ (∀ g1 out1, state Scenario.fresh = [] →
       sub Scenario.plain "s1" Scenario.fresh [] = (Ok tt, g1, out1) →
       list_bool (mlist g1) = true
       ∧ ∃ g2, unsub "nobody" g1 out1 = (Ok tt, g2, out1)
               ∧ mlist g2 = empty_list ∧ state g2 = []).
Proof.
  apply (unsub_never_raises Scenario.plain "nobody" "s1" Scenario.fresh []).
Defined.

(** ** Presence updates (C2, C3) *)

(** [_is_in] accepts an index that lies between the two ends of a
    recorded range, the upper end included. *)
Lemma _is_in_closed g item_index sid :
  _is_in g item_index sid = true
  ↔ ∃ r, r ∈ recorded sid g ∧ r.1 ≤ Z.of_nat item_index ≤ r.2.
Proof.
  unfold _is_in, recorded. destruct (state_get sid (state g)) as [ranges|]; simpl.
  - rewrite existsb_exists. split.
    + intros (r & Hr & Hle). exists r. split.
      * apply elem_of_elements. by apply list_elem_of_In.
      * apply andb_true_iff in Hle as [?%Z.leb_le ?%Z.leb_le]. lia.
    + intros (r & Hr & Hle). exists r. split.
      * apply list_elem_of_In. by apply elem_of_elements.
      * apply andb_true_iff. split; apply Z.leb_le; lia.
  - split; [done|]. intros (r & Hr & _). by apply not_elem_of_empty in Hr.
Qed.

(** C2 at its failing input: "s1" asked for the range (0, 2), that is
    for the items 0 and 1; alice sits at flat index 2; her presence
    update is sent to "s1" all the same. *)
Lemma pres_update_reaches_range_end :
  let subscribed := (shard_query_here Scenario.plain "s1" [(0, 2)] Scenario.fresh []).1.2 in
  let res :=
    pres_update Scenario.plain 1 (mkPartial None None (Some "dnd") ∅) subscribed [] in
  elements (recorded "s1" subscribed) = [(0, 2)]
  ∧ items subscribed
    = Ok [GroupItem (SimpleGroup "online") 2; MemberItem Scenario.carl;
          MemberItem Scenario.alice;
          GroupItem (SimpleGroup "offline") 1; MemberItem Scenario.bob]
  ∧ res.1.1 = Ok ["s1"]
  ∧ (λ ev : Sent, (ev.1.1, payload_ops ev.2)) <$> res.2
    = [("s1",
        [mkOpDict "UPDATE" None None (Some 2%nat)
           (Some (MemberItem (mkPresence (mkUser "1" "alice") [] "dnd" ∅)))])].
Proof. split_and!; vm_compute; reflexivity. Qed.

(** C3 at its failing input: carl is the first member of the online
    bucket; a presence update changing his status leaves the stored
    record as it was, and the UPDATE that goes out carries the old
    record.  The same update on alice, second in the bucket, is merged. *)
Lemma pres_update_skips_first_of_bucket :
  let subscribed := (shard_query_here Scenario.plain "s1" [(0, 5)] Scenario.fresh []).1.2 in
  let partial := mkPartial None None (Some "dnd") ∅ in
  let res := pres_update Scenario.plain 3 partial subscribed [] in
  let res' := pres_update Scenario.plain 1 partial subscribed [] in
  (∃ d, data (mlist subscribed) = Some d
        ∧ d !! SimpleGroup "online" = Some [Scenario.carl; Scenario.alice])
  ∧ res.1.1 = Ok ["s1"]
  ∧ (∃ d, data (mlist res.1.2) = Some d
          ∧ d !! SimpleGroup "online" = Some [Scenario.carl; Scenario.alice])
  ∧ (λ ev : Sent, (ev.1.1, payload_ops ev.2)) <$> res.2
    = [("s1", [mkOpDict "UPDATE" None None (Some 1%nat) (Some (MemberItem Scenario.carl))])]
  ∧ status Scenario.carl = "idle"
  ∧ (∃ d, data (mlist res'.1.2) = Some d
          ∧ d !! SimpleGroup "online"
            = Some [Scenario.carl; presence_update Scenario.alice partial]).
Proof.
  split_and!.
  - eexists. split; vm_compute; reflexivity.
  - vm_compute. reflexivity.
  - eexists. split; vm_compute; reflexivity.
  - vm_compute. reflexivity.
  - reflexivity.
  - eexists. split; vm_compute; reflexivity.
Qed.

(** ** Hoisted roles *)

(** As soon as one hoisted role may read the channel, the group list
    starts with a bare role id and the build raises on its [.gid]. *)
Lemma hoisted_role_breaks_build E g out ids ps rows ovs ov :
  storage_get_member_ids E (guild_id g) = Ok ids →
  presence_guild_presences E ids (guild_id g) = Ok ps →
  storage_fetch_roles E (guild_id g) = Ok rows →
  storage_chan_overwrites E (channel_id g) = Ok ovs →
  overwrites_by_id ∅ ovs = Ok ov →
  readable_hoisted E ov rows ≠ [] →
  _init_member_list E g out
  = (Err AttributeError, set_mlist (with_groups ov (readable_hoisted E ov rows)) g, out).
Proof.
  intros Hids Hps Hrows Hovs Hov Hrg.
  rewrite _init_member_list_eq, Hids, Hps, set_groups_eq, get_roles_eq, Hrows, Hovs, Hov.
  simpl. destruct (readable_hoisted E ov rows) as [|r rs]; [done|].
  destruct g. done.
Qed.

(** Role 7 is hoisted and may read the channel: the build stores the
    bare id 7 in front of the two synthetic groups, raises
    [AttributeError] before any bucket exists, and does so again at
    every later [sub]. *)
Lemma hoisted_role_never_builds :
  let res := sub Scenario.hoisted "s1" Scenario.fresh [] in
  res.1.1 = Err AttributeError
  ∧ groups (mlist res.1.2)
    = Some [BareId (RoleId 7); Info online_group; Info offline_group]
  ∧ data (mlist res.1.2) = None
  ∧ list_bool (mlist res.1.2) = false
  ∧ items res.1.2 = Ok []
  ∧ (sub Scenario.hoisted "s1" res.1.2 []).1.1 = Err AttributeError.
Proof. split_and!; vm_compute; reflexivity. Qed.

(** ** Membership events (C8) *)

(** C8 at every input: [dispatch] returns without touching the list,
    the subscriptions, or any session. *)
Lemma dispatch_does_nothing {A} (event : string) (data : A) g out :
  dispatch event data g out = (Ok tt, g, out).
Proof. unfold dispatch. proc_unfold. by destruct (list_bool (mlist g)). Qed.

(** ** The invariant of the stored list

    A list as [get_gml] creates it satisfies [list_inv], every method
    of the member list keeps it, and it gives the [store_inv] that the
    subscription theorem asks for. *)

Section Invariant.
Context (E : Env).

Lemma list_inv_empty : list_inv empty_list.
Proof. by left. Qed.

Lemma list_inv_store_inv g : list_inv (mlist g) → store_inv g.
Proof.
  intros [Hnone|Hready] Hb; [|done].
  unfold list_bool in Hb. rewrite Hnone in Hb.
  rewrite (bool_decide_eq_false_2 (is_Some None)) in Hb by (by intros [? ?]).
  by rewrite !andb_false_r, ?andb_false_l in Hb.
Qed.

Lemma _init_member_list_inv g out r g' out' :
  data (mlist g) = None →
  _init_member_list E g out = (r, g', out') →
  list_inv (mlist g').
Proof.
  intros Hnone H.
  destruct (storage_get_member_ids E (guild_id g)) as [ids|e0] eqn:Hids; last first.
  { rewrite _init_member_list_eq, Hids in H. injection H as <- <- <-. by left. }
  destruct (presence_guild_presences E ids (guild_id g)) as [ps|e0] eqn:Hps; last first.
  { rewrite _init_member_list_eq, Hids, Hps in H. injection H as <- <- <-. by left. }
  destruct (storage_fetch_roles E (guild_id g)) as [rows|e0] eqn:Hrows; last first.
  { rewrite _init_member_list_eq, Hids, Hps, set_groups_eq, get_roles_eq, Hrows in H.
    injection H as <- <- <-. by left. }
  destruct (storage_chan_overwrites E (channel_id g)) as [ovs|e0] eqn:Hovs; last first.
  { rewrite _init_member_list_eq, Hids, Hps, set_groups_eq, get_roles_eq, Hrows, Hovs in H.
    injection H as <- <- <-. by left. }
  destruct (overwrites_by_id ∅ ovs) as [ov|e0] eqn:Hov; last first.
  { rewrite _init_member_list_eq, Hids, Hps, set_groups_eq, get_roles_eq, Hrows, Hovs, Hov in H.
    injection H as <- <- <-. by left. }
  destruct (readable_hoisted E ov rows) as [|x xs] eqn:Hrg.
  - right. eapply build_reaches_pass_1; [|exact H].
    by exists ids, ps, rows, ovs, ov.
  - rewrite (hoisted_role_breaks_build E g out ids ps rows ovs ov) in H;
      [|done..|by rewrite Hrg].
    injection H as <- <- <-. by left.
Qed.

Lemma _init_check_inv g out r g' out' :
  list_inv (mlist g) →
  _init_check E g out = (r, g', out') →
  list_inv (mlist g').
Proof.
  intros Hinv. unfold _init_check. proc_unfold.
  destruct (list_bool (mlist g)) eqn:Hb.
  - by intros [= <- <- <-].
  - destruct Hinv as [Hnone|Hready].
    + by apply _init_member_list_inv.
    + by rewrite (ready_list_bool _ Hready) in Hb.
Qed.

Lemma unsub_inv sid g out r g' out' :
  list_inv (mlist g) →
  unsub sid g out = (r, g', out') →
  list_inv (mlist g').
Proof.
  intros Hinv. rewrite unsub_eq. intros [= <- <- <-].
  destruct (state_pop sid (state g)); [by left|done].
Qed.

Lemma sync_ranges_frame sid ranges : ∀ ops g out r g' out',
  sync_ranges sid ranges ops g out = (r, g', out') → mlist g' = mlist g.
Proof.
  induction ranges as [|[start end_] ranges IH]; intros ops g out r g' out'; simpl.
  { by intros [= <- <- <-]. }
  destruct (end_ - start <? 0); [apply IH|].
  proc_unfold. rewrite items_set_state.
  destruct (items g) as [its|e]; [|by intros [= <- <- <-]].
  intros H. by apply IH in H.
Qed.

Lemma dispatch_loop_inv live keys payload : ∀ dispatched g out r g' out',
  list_inv (mlist g) →
  dispatch_loop E live keys payload dispatched g out = (r, g', out') →
  list_inv (mlist g').
Proof.
  induction keys as [|k keys IH]; intros dispatched g out r g' out' Hinv; simpl;
    proc_unfold.
  { destruct (match live with Some (_, used) => _ | None => false end);
      by intros [= <- <- <-]. }
  destruct (match live with Some (_, used) => _ | None => false end);
    [by intros [= <- <- <-]|].
  destruct (match live with Some (item_index, _) => _ | None => false end);
    [by apply IH|].
  unfold get_state. destruct (fetch_raw E k) as [st|]; proc_unfold.
  - destruct (ws_dispatch E st "GUILD_MEMBER_LIST_UPDATE" payload);
      [by apply IH|by intros [= <- <- <-]].
  - rewrite unsub_eq. apply IH.
    destruct (state_pop k (state g)); [by left|done].
Qed.

Lemma _dispatch_sess_inv session_ids operations g out r g' out' :
  list_inv (mlist g) →
  _dispatch_sess E session_ids operations g out = (r, g', out') →
  list_inv (mlist g').
Proof.
  intros Hinv. unfold _dispatch_sess. proc_unfold.
  destruct (list_iter (mlist g)); [|by intros [= <- <- <-]].
  destruct (result_mapM to_dict operations); [|by intros [= <- <- <-]].
  destruct session_ids; by apply dispatch_loop_inv.
Qed.

Lemma shard_query_here_inv sid ranges g out r g' out' :
  list_inv (mlist g) →
  shard_query_here E sid ranges g out = (r, g', out') →
  list_inv (mlist g').
Proof.
  intros Hinv. unfold shard_query_here. unfold Proc.bind at 1.
  destruct (_init_check E g out) as [[[[]|e] g1] out1] eqn:Hcheck;
    [|intros [= <- <- <-]; by eapply _init_check_inv].
  apply _init_check_inv in Hcheck; [|done].
  unfold Proc.bind at 1.
  destruct (sync_ranges sid ranges [] g1 out1) as [[[ops|e] g2] out2] eqn:Hsync;
    apply sync_ranges_frame in Hsync; [|intros [= <- <- <-]; by rewrite Hsync].
  unfold Proc.bind, Proc.ret.
  destruct (_dispatch_sess E (SessionList [sid]) ops g2 out2) as [[[l|e] g3] out3] eqn:Hd;
    apply _dispatch_sess_inv in Hd; try (by rewrite Hsync); by intros [= <- <- <-].
Qed.

Lemma merge_presence_inv uid partial_presence gs : ∀ g out r g' out',
  list_inv (mlist g) →
  merge_presence uid partial_presence gs g out = (r, g', out') →
  list_inv (mlist g').
Proof.
  induction gs as [|e gs IH]; intros g out r g' out' Hinv; simpl; proc_unfold.
  { by intros [= <- <- <-]. }
  destruct (attr_gid e) as [k|]; [|by intros [= <- <- <-]].
  destruct (data (mlist g)) as [d|] eqn:Hd; [|by intros [= <- <- <-]].
  destruct (d !! k) as [presences|] eqn:Hk; [|by intros [= <- <- <-]].
  destruct (py_not_index _); [by apply IH|].
  apply IH. right.
  destruct Hinv as [Hnone|(gs' & gi & d' & ov & Hl & Hkeys)]; [congruence|].
  rewrite Hl in Hd. injection Hd as ->.
  eexists gs', gi, _, ov. split.
  - unfold set_mlist, set_data_field. simpl. by rewrite Hl.
  - intros gr Hgr. destruct (decide (k = gid gr)) as [->|Hne].
    + rewrite lookup_insert_eq. by eexists.
    + rewrite lookup_insert_ne by done. by apply Hkeys.
Qed.

Lemma pres_update_inv uid partial_presence g out r g' out' :
  list_inv (mlist g) →
  pres_update E uid partial_presence g out = (r, g', out') →
  list_inv (mlist g').
Proof.
  intros Hinv. unfold pres_update. unfold Proc.bind at 1.
  destruct (_init_check E g out) as [[[[]|e] g1] out1] eqn:Hcheck;
    [|intros [= <- <- <-]; by eapply _init_check_inv].
  apply _init_check_inv in Hcheck; [|done].
  unfold Proc.bind at 1. unfold Proc.get at 1. unfold Proc.bind at 1.
  destruct (merge_presence (py_str uid) partial_presence
              (default [] (groups (mlist g1))) g1 out1)
    as [[[[]|e] g2] out2] eqn:Hmerge;
    apply merge_presence_inv in Hmerge; try done; [|by intros [= <- <- <-]].
  proc_unfold.
  destruct (items g2) as [its|]; [|by intros [= <- <- <-]].
  destruct (py_not_index _); [by intros [= <- <- <-]|].
  destruct (its !! _); [|by intros [= <- <- <-]].
  by apply _dispatch_sess_inv.
Qed.
End Invariant.

(** * Further properties of the module *)

(** ** What a build puts in the two buckets *)

Section Partition.
Context (E : Env).

Lemma fresh_buckets_eq :
  fresh_buckets
  = <[SimpleGroup "offline" := []]>
      (<[SimpleGroup "online" := []]> (∅ : gmap GroupID (list Presence))).
Proof. done. Qed.

Lemma first_entitled_synthetic member_roles :
  first_entitled [Info online_group; Info offline_group] member_roles = Ok None.
Proof. done. Qed.

(** [_pass_1] on a list that has only the two synthetic groups: when
    it returns, the offline bucket has grown by the gated presences
    whose status is offline and the online bucket by the other gated
    presences, both in the order of the argument. *)
Lemma _pass_1_two_buckets ps : ∀ on off gi ci GI OV st out g' out',
  _pass_1 E ps
    (mk gi ci (mkMemberList (Some [Info online_group; Info offline_group]) GI
       (Some (<[SimpleGroup "offline" := off]> (<[SimpleGroup "online" := on]> ∅))) OV) st)
    out = (Ok tt, g', out') →
  g' = mk gi ci (mkMemberList (Some [Info online_group; Info offline_group]) GI
         (Some (<[SimpleGroup "offline" :=
                    off ++ filter (λ p, passes_gate E ci p = true ∧ is_offline p = true) ps]>
                 (<[SimpleGroup "online" :=
                      on ++ filter (λ p, passes_gate E ci p = true ∧ is_offline p = false) ps]>
                    ∅))) OV) st
  ∧ out' = out.
Proof.
  induction ps as [|p ps IH]; intros on off gi ci GI OV st out g' out'.
  { simpl. proc_unfold. intros [= <- <-]. by rewrite !app_nil_r. }
  rewrite _pass_1_cons. simpl.
  destruct (py_int (user_id (user p))) as [member_id|] eqn:Hid; [|done].
  destruct (result_mapM py_int (roles p)) as [member_roles|]; [|done].
  destruct (get_permissions E member_id ci) as [perms|] eqn:Hperm; [|done].
  assert (Hgate : passes_gate E ci p = read_messages E perms).
  { unfold passes_gate. by rewrite Hid, Hperm. }
  destruct (read_messages E perms) eqn:Hread.
  2: { intros H. apply IH in H as [-> ->].
       by rewrite !filter_cons_False by (rewrite Hgate; by intros [? _]). }
  unfold is_offline. destruct (String.eqb (status p) "offline") eqn:Hoff.
  - erewrite bind_ok; [|done].
    erewrite bind_ok; last first.
    { by rewrite data_append_eq, lookup_insert_eq. }
    rewrite insert_insert_eq. intros H. apply IH in H as [-> ->].
    rewrite filter_cons_True by (by rewrite Hgate, Hoff).
    rewrite filter_cons_False by (rewrite Hoff; by intros [_ ?]).
    by rewrite <- app_assoc.
  - erewrite bind_ok; last first.
    { by rewrite _calc_member_group_eq, first_entitled_synthetic. }
    simpl. unfold _to_simple_group. rewrite Hoff.
    erewrite bind_ok; last first.
    { rewrite data_append_eq, lookup_insert_ne, lookup_insert_eq by done. done. }
    rewrite (insert_insert_ne _ (SimpleGroup "online") (SimpleGroup "offline")) by done.
    rewrite insert_insert_eq. intros H. apply IH in H as [-> ->].
    rewrite filter_cons_False by (rewrite Hoff; by intros [_ ?]).
    rewrite filter_cons_True by (by rewrite Hgate, Hoff).
    by rewrite <- app_assoc.
Qed.

(** X1: the buckets of a list that a build returned.  The offline
    bucket holds the fetched presences that pass the gate and whose
    status is offline, the online bucket those that pass the gate with
    any other status, each sorted (stably) by display name; there is no
    other bucket.  So every gated presence is in exactly one bucket and
    no other presence is in any. *)
Theorem build_partition g out g1 out1 ids ps members :
  _init_member_list E g out = (Ok tt, g1, out1) →
  storage_get_member_ids E (guild_id g) = Ok ids →
  presence_guild_presences E ids (guild_id g) = Ok ps →
  storage_get_member_data E (guild_id g) = Ok members →
  data (mlist g1)
  = Some (<[SimpleGroup "offline" :=
              sort_by String.ltb (display_name (nick_dict members))
                (filter (λ p, passes_gate E (channel_id g) p = true ∧ is_offline p = true) ps)]>
           (<[SimpleGroup "online" :=
                sort_by String.ltb (display_name (nick_dict members))
                  (filter (λ p, passes_gate E (channel_id g) p = true ∧ is_offline p = false) ps)]>
              ∅)).
Proof.
  intros H Hids Hps Hmem. rewrite _init_member_list_eq in H.
  destruct g as [gi ci l st]. simpl in *. rewrite Hids, Hps in H.
  rewrite set_groups_eq, get_roles_eq in H. simpl in H.
  destruct (storage_fetch_roles E gi) as [rows|]; [|done].
  destruct (storage_chan_overwrites E ci) as [ovs|]; [|done].
  destruct (overwrites_by_id ∅ ovs) as [ov|]; [|done].
  simpl in H. destruct (readable_hoisted E ov rows) as [|r rs]; [|done].
  simpl in H. unfold Proc.bind, set_mlist, set_data_field, with_groups in H. simpl in H.
  change (dict_of_list (λ k : GroupID, k) (λ _ : GroupID, [])
            [SimpleGroup "online"; SimpleGroup "offline"]) with fresh_buckets in H.
  rewrite fresh_buckets_eq in H.
  destruct (_pass_1 E ps _ out) as [[[[]|e] g2] out2] eqn:Hpass; [|done].
  apply _pass_1_two_buckets in Hpass as [-> ->].
  rewrite _sort_groups_eq, Hmem in H. injection H as <- <-. simpl.
  by rewrite !fmap_insert, fmap_empty.
Qed.
End Partition.

Lemma build_partition_witness :
  data (mlist (_init_member_list Scenario.gated Scenario.fresh []).1.2)
  = Some (<[SimpleGroup "offline" :=
              sort_by String.ltb
                (display_name (nick_dict [mkMember (mkUser "1" "alice") (Some "zed")]))
                (filter (λ p, passes_gate Scenario.gated 20 p = true ∧ is_offline p = true)
                   [Scenario.bob; Scenario.alice; Scenario.carl])]>
           (<[SimpleGroup "online" :=
                sort_by String.ltb
                  (display_name (nick_dict [mkMember (mkUser "1" "alice") (Some "zed")]))
                  (filter (λ p, passes_gate Scenario.gated 20 p = true ∧ is_offline p = false)
                     [Scenario.bob; Scenario.alice; Scenario.carl])]>
              ∅)).
Proof.
  apply (build_partition Scenario.gated Scenario.fresh []
           (_init_member_list Scenario.gated Scenario.fresh []).1.2 [] [2; 1; 3]).
  - vm_compute. reflexivity.
  - reflexivity.
  - reflexivity.
  - reflexivity.
Defined.

(** ** The role groups of [get_roles] *)

Section ListFacts.
Context {A B : Type}.




End ListFacts.

Section Stability.
Context {A K : Type} `{!EqDecision K} (ltb : K → K → bool) (key : A → K).
Context (ltb_irrefl : ∀ a, ltb a a = false).


End Stability.

Section GetRoles.
Context (E : Env).


End GetRoles.

(** ** Sessions that leave, sessions that are gone *)

Section Sessions.
Context (E : Env).

Lemma state_get_pop sid' sid st :
  state_get sid' (state_pop sid st)
  = if decide (sid' = sid) then None else state_get sid' st.
Proof.
  unfold state_pop. induction st as [|[k rs] st IH]; simpl.
  { by destruct (decide (sid' = sid)). }
  destruct (decide (k = sid)) as [->|Hk].
  - rewrite filter_cons_False by (simpl; by intros []).
    rewrite IH. destruct (decide (sid' = sid)) as [->|Hne]; [done|].
    by rewrite decide_False.
  - rewrite filter_cons_True by done. simpl. rewrite IH.
    destruct (decide (k = sid')) as [->|Hk'].
    + by rewrite decide_False.
    + done.
Qed.

Lemma state_pop_add sid r st : state_pop sid (state_add sid r st) = state_pop sid st.
Proof.
  unfold state_pop. induction st as [|[k rs] st IH]; simpl.
  { by rewrite filter_cons_False by (simpl; by intros []). }
  destruct (decide (k = sid)) as [->|Hk].
  - by rewrite !filter_cons_False by (simpl; by intros []).
  - rewrite !filter_cons_True by done. by rewrite IH.
Qed.

Lemma state_pop_record sid rs : ∀ st,
  state_pop sid (record_ranges sid rs st) = state_pop sid st.
Proof.
  unfold record_ranges. induction rs as [|r rs IH]; intros st; simpl; [done|].
  by rewrite IH, state_pop_add.
Qed.

(** X3: while another session still holds ranges, [unsub] only
    forgets the session it is given: the list stays, every other
    session keeps its ranges, no event is sent. *)
Theorem unsub_keeps_other_sessions sid sid' ranges g out :
  sid' ≠ sid →
  state_get sid' (state g) = Some ranges →
  ∃ g',
    unsub sid g out = (Ok tt, g', out)
    ∧ mlist g' = mlist g
    ∧ state_get sid (state g') = None
    ∧ ∀ s, s ≠ sid → state_get s (state g') = state_get s (state g).
Proof.
  intros Hne Hother. eexists. split; [apply unsub_eq|].
  assert (Hpop : state_get sid' (state_pop sid (state g)) = Some ranges).
  { by rewrite state_get_pop, decide_False. }
  destruct (state_pop sid (state g)) as [|kv st'] eqn:Hst; [done|].
  simpl. rewrite Hst. split_and!; [done| |].
  - by rewrite <- Hst, state_get_pop, decide_True.
  - intros s Hs. by rewrite <- Hst, state_get_pop, decide_False.
Qed.

(** X4: a range query from a session that the state manager does not
    know.  The ranges are recorded and then removed again by the
    [unsub] inside [get_state]: the call returns normally, sends
    nothing, leaves no entry for the session, and, if no other session
    is subscribed, ends with the list reset to empty. *)
Theorem stale_session_query sid ranges g out g1 out1 :
  store_inv g →
  _init_check E g out = (Ok tt, g1, out1) →
  fetch_raw E sid = None →
  ∃ g2,
    shard_query_here E sid ranges g out = (Ok tt, g2, out)
    ∧ state g2 = state_pop sid (state g)
    ∧ state_get sid (state g2) = None
    ∧ mlist g2 = match state_pop sid (state g) with
                 | [] => empty_list
                 | _ :: _ => mlist g1
                 end.
Proof.
  intros Hinv Hcheck Hstale.
  destruct (_init_check_ready E g out g1 out1 Hinv Hcheck) as (Hready & -> & Hstate & _).
  destruct (ready_items g1 Hready) as (gps & gs & _ & Hiter & _ & _ & Hits).
  set (g1' := set_state (record_ranges sid (filter valid_range ranges)) g1).
  assert (Hd : _dispatch_sess E (SessionList [sid])
                 (sync_op (concat (group_items <$> gps)) <$> filter valid_range ranges) g1' out
               = (Ok [], match state_pop sid (state g) with
                         | [] => mk (guild_id g1) (channel_id g1) empty_list []
                         | _ :: _ => set_state (state_pop sid) g1'
                         end, out)).
  { unfold _dispatch_sess. proc_unfold. simpl. rewrite Hiter, mapM_to_dict_sync. simpl.
    proc_unfold. unfold get_state. rewrite Hstale. proc_unfold. rewrite unsub_eq. simpl.
    rewrite state_pop_record, Hstate.
    by destruct (state_pop sid (state g)). }
  eexists. split.
  - unfold shard_query_here.
    erewrite bind_ok; [|exact Hcheck].
    erewrite bind_ok; [|by apply sync_ranges_spec].
    erewrite bind_ok; [|exact Hd]. done.
  - destruct (state_pop sid (state g)) as [|kv st'] eqn:Hpop; simpl.
    + done.
    + rewrite state_pop_record, Hstate, Hpop. split_and!; [done| |done].
      by rewrite <- Hpop, state_get_pop, decide_True.
Qed.

(** X5: the readiness check is idempotent: once it has returned, a
    second check, or a [sub], changes nothing and calls no
    collaborator. *)
Theorem _init_check_idempotent sid g out g1 out1 :
  _init_check E g out = (Ok tt, g1, out1) →
  _init_check E g1 out1 = (Ok tt, g1, out1)
  ∧ sub E sid g1 out1 = (Ok tt, g1, out1)
  ∧ list_bool (mlist g1) = true.
Proof.
  intros H.
  assert (Hb : list_bool (mlist g1) = true).
  { revert H. unfold _init_check. proc_unfold.
    destruct (list_bool (mlist g)) eqn:Hb.
    - by intros [= <- <-].
    - intros H. apply ready_list_bool. by eapply built_ready. }
  unfold sub, _init_check. proc_unfold. by rewrite Hb.
Qed.

(** X6: every method keeps the stored list either without buckets or
    ready (all groups are [GroupInfo] objects and have their bucket),
    whether it returns or raises. *)
Theorem methods_keep_list_inv g out :
  list_inv (mlist g) →
  (∀ r g' out', _init_check E g out = (r, g', out') → list_inv (mlist g'))
  ∧ (∀ sid r g' out', unsub sid g out = (r, g', out') → list_inv (mlist g'))
  ∧ (∀ sid ranges r g' out',
       shard_query_here E sid ranges g out = (r, g', out') → list_inv (mlist g'))
  ∧ (∀ uid partial_presence r g' out',
       pres_update E uid partial_presence g out = (r, g', out') → list_inv (mlist g')).
Proof.
  intros Hinv. split_and!.
  - intros r g' out'. by apply _init_check_inv.
  - intros sid r g' out'. by apply unsub_inv.
  - intros sid ranges r g' out'. by apply shard_query_here_inv.
  - intros uid partial_presence r g' out'. by apply pres_update_inv.
Qed.
End Sessions.

(** ** Presence updates that go through *)

Lemma index_by_func_None {A} (f : A → bool) (l : list A) :
  (∀ x, x ∈ l → f x = false) → index_by_func f l = None.
Proof.
  induction l as [|x l IH]; intros Hf; simpl; [done|].
  rewrite (Hf x) by (by left). rewrite IH; [done|].
  intros y Hy. apply Hf. by right.
Qed.

Lemma index_by_func_Some {A} (f : A → bool) (l : list A) i :
  index_by_func f l = Some i →
  ∃ x, l !! i = Some x ∧ f x = true
       ∧ ∀ j y, (j < i)%nat → l !! j = Some y → f y = false.
Proof.
  revert i. induction l as [|x l IH]; intros i; simpl; [done|].
  destruct (f x) eqn:Hx.
  - intros [= <-]. exists x. split_and!; [done..|]. intros j y Hj. lia.
  - destruct (index_by_func f l) as [i'|]; [|done]. simpl. intros [= <-].
    destruct (IH i' eq_refl) as (x' & Hl & Hx' & Hfirst).
    exists x'. split_and!; [done..|].
    intros [|j] y Hj; simpl.
    + by intros [= <-].
    + apply Hfirst. lia.
Qed.

Section PresenceUpdate.
Context (E : Env).

(** On a list whose groups all have their bucket, the loop of
    [pres_update] over the groups returns; it changes nothing but
    [data], and there no bucket appears, disappears or changes length. *)
Lemma merge_presence_total uid partial_presence gs : ∀ d,
  (∀ gr, gr ∈ gs → is_Some (d !! gid gr)) →
  ∃ d2,
    (∀ G GI OV gi ci st out,
       merge_presence uid partial_presence (Info <$> gs)
         (mk gi ci (mkMemberList G GI (Some d) OV) st) out
       = (Ok tt, mk gi ci (mkMemberList G GI (Some d2) OV) st, out))
    ∧ ∀ k, length <$> d2 !! k = length <$> d !! k.
Proof.
  induction gs as [|gr gs IH]; intros d Hd.
  { by exists d. }
  destruct (Hd gr) as [presences Hp]; [by left|].
  set (p_idx := index_by_func (λ p, String.eqb (user_id (user p)) uid) presences).
  destruct (py_not_index p_idx) eqn:Hnot.
  - destruct (IH d) as (d2 & Hrun & Hlen).
    { intros gr' Hgr'. apply Hd. by right. }
    exists d2. split; [|done]. intros. csimpl. proc_unfold. simpl.
    rewrite Hp. fold p_idx. rewrite Hnot. apply Hrun.
  - set (d1 := <[gid gr := alter (λ p, presence_update p partial_presence)
                             (default 0%nat p_idx) presences]> d).
    assert (Hlen1 : ∀ k, length <$> d1 !! k = length <$> d !! k).
    { intros k. unfold d1. destruct (decide (gid gr = k)) as [<-|Hne].
      - rewrite lookup_insert_eq, Hp. simpl. by rewrite length_alter.
      - by rewrite lookup_insert_ne. }
    destruct (IH d1) as (d2 & Hrun & Hlen).
    { intros gr' Hgr'. destruct (Hd gr') as [b Hb]; [by right|].
      specialize (Hlen1 (gid gr')). rewrite Hb in Hlen1.
      destruct (d1 !! gid gr'); [by eexists|done]. }
    exists d2. split.
    + intros. csimpl. proc_unfold. simpl.
      rewrite Hp. fold p_idx. rewrite Hnot. apply Hrun.
    + intros k. by rewrite Hlen, Hlen1.
Qed.

Lemma elem_of_group_items x (gps : list (GroupInfo * list Presence)) :
  x ∈ concat (group_items <$> gps) →
  ∃ gp, gp ∈ gps ∧ (x = GroupItem (gid gp.1) (length gp.2)
                    ∨ ∃ p, p ∈ gp.2 ∧ x = MemberItem p).
Proof.
  induction gps as [|gp gps IH]; csimpl; [by intros ?%elem_of_nil|].
  rewrite elem_of_cons, elem_of_app. intros [->|[Hx|Hx]].
  - exists gp. split; [by left|by left].
  - apply list_elem_of_fmap in Hx as (p & -> & Hp).
    exists gp. split; [by left|]. right. by exists p.
  - destruct (IH Hx) as (gp' & Hgp' & Hcase). exists gp'. split; [by right|done].
Qed.

(** X7: a presence update for a user who is in no bucket is dropped:
    the call returns the empty list, changes nothing and sends
    nothing. *)
Theorem pres_update_unknown_user uid partial_presence g out :
  ready (mlist g) →
  (∀ d k bucket p,
     data (mlist g) = Some d → d !! k = Some bucket → p ∈ bucket →
     user_id (user p) ≠ py_str uid) →
  pres_update E uid partial_presence g out = (Ok [], g, out).
Proof.
  intros Hready Hnone.
  destruct (ready_items g Hready) as (gps & gs & Hgs & Hiter & Hfst & Hall & Hits).
  clear gs Hgs Hfst. destruct Hready as (gs & gi & d & ov & Hl & Hd).
  destruct g as [guild chan l st]. simpl in *. subst l.
  assert (Hmerge : merge_presence (py_str uid) partial_presence (Info <$> gs)
            (mk guild chan (mkMemberList (Some (Info <$> gs)) (Some gi) (Some d) (Some ov)) st)
            out
          = (Ok tt,
             mk guild chan (mkMemberList (Some (Info <$> gs)) (Some gi) (Some d) (Some ov)) st,
             out)).
  { assert (∀ sub_gs, (∀ gr, gr ∈ sub_gs → gr ∈ gs) →
      merge_presence (py_str uid) partial_presence (Info <$> sub_gs)
        (mk guild chan (mkMemberList (Some (Info <$> gs)) (Some gi) (Some d) (Some ov)) st)
        out
      = (Ok tt,
         mk guild chan (mkMemberList (Some (Info <$> gs)) (Some gi) (Some d) (Some ov)) st,
         out)) as Hgen.
    { induction sub_gs as [|gr sub_gs IH]; intros Hsub; [done|].
      csimpl. proc_unfold. simpl.
      destruct (Hd gr) as [bucket Hb]; [apply Hsub; by left|]. rewrite Hb.
      rewrite index_by_func_None; simpl.
      - apply IH. intros gr' Hgr'. apply Hsub. by right.
      - intros p Hp. apply String.eqb_neq. by eapply Hnone. }
    by apply Hgen. }
  unfold pres_update.
  erewrite bind_ok; last first.
  { unfold _init_check. proc_unfold. done. }
  unfold Proc.bind at 1. unfold Proc.get at 1. simpl.
  erewrite bind_ok; [|exact Hmerge].
  proc_unfold. rewrite Hits. rewrite index_by_func_None; [done|].
  intros x Hx. apply bool_decide_eq_false.
  apply elem_of_group_items in Hx as (gp & Hgp & [->|(p & Hp & ->)]); [done|].
  simpl. intros [= Hid].
  rewrite Forall_forall in Hall. destruct (Hall gp Hgp) as (d' & [= <-] & Hb).
  by eapply Hnone.
Qed.

(** X8: the loop of [pres_update] over a list with distinct group ids.
    It returns; in the bucket of each group the user's first record is
    replaced by the merged one when it stands at position 1 or later;
    every other record, and every bucket of a key that is no group, is
    left as it was. *)
Theorem merge_presence_law uid partial_presence gs : ∀ d,
  NoDup (gid <$> gs) →
  (∀ gr, gr ∈ gs → is_Some (d !! gid gr)) →
  ∃ d2,
    (∀ G GI OV gi ci st out,
       merge_presence uid partial_presence (Info <$> gs)
         (mk gi ci (mkMemberList G GI (Some d) OV) st) out
       = (Ok tt, mk gi ci (mkMemberList G GI (Some d2) OV) st, out))
    ∧ ∀ k, d2 !! k = if decide (k ∈ gid <$> gs)
                     then merge_bucket uid partial_presence <$> d !! k
                     else d !! k.
Proof.
  induction gs as [|gr gs IH]; intros d Hnodup Hd.
  { exists d. split; [done|]. intros k. rewrite decide_False; [done|].
    by intros ?%elem_of_nil. }
  csimpl in Hnodup. apply NoDup_cons in Hnodup as [Hfresh Hnodup].
  destruct (Hd gr) as [presences Hp]; [by left|].
  set (p_idx := index_by_func (λ p, String.eqb (user_id (user p)) uid) presences).
  assert (Hbucket : merge_bucket uid partial_presence presences
                    = if py_not_index p_idx then presences
                      else alter (λ p, presence_update p partial_presence)
                             (default 0%nat p_idx) presences).
  { unfold merge_bucket. fold p_idx. by destruct p_idx as [[|n]|]. }
  destruct (py_not_index p_idx) eqn:Hnot.
  - destruct (IH d Hnodup) as (d2 & Hrun & Hlook).
    { intros gr' Hgr'. apply Hd. by right. }
    exists d2. split.
    + intros. csimpl. proc_unfold. simpl. rewrite Hp. fold p_idx. rewrite Hnot. apply Hrun.
    + intros k. rewrite Hlook. csimpl.
      destruct (decide (k = gid gr)) as [->|Hne].
      * rewrite decide_False by done. rewrite decide_True by (by left).
        rewrite Hp. simpl. by rewrite Hbucket.
      * destruct (decide (k ∈ gid <$> gs)) as [Hin|Hout].
        -- by rewrite decide_True by (by right).
        -- rewrite decide_False; [done|]. by intros [?|?]%elem_of_cons.
  - set (d1 := <[gid gr := alter (λ p, presence_update p partial_presence)
                             (default 0%nat p_idx) presences]> d).
    destruct (IH d1 Hnodup) as (d2 & Hrun & Hlook).
    { intros gr' Hgr'. unfold d1. destruct (decide (gid gr = gid gr')) as [Heq|Hne].
      - rewrite Heq, lookup_insert_eq. by eexists.
      - rewrite lookup_insert_ne by done. apply Hd. by right. }
    exists d2. split.
    + intros. csimpl. proc_unfold. simpl. rewrite Hp. fold p_idx. rewrite Hnot. apply Hrun.
    + intros k. rewrite Hlook. csimpl. unfold d1.
      destruct (decide (k = gid gr)) as [->|Hne].
      * rewrite decide_False by done. rewrite decide_True by (by left).
        rewrite lookup_insert_eq, Hp. simpl. by rewrite Hbucket.
      * rewrite lookup_insert_ne by done.
        destruct (decide (k ∈ gid <$> gs)) as [Hin|Hout].
        -- by rewrite decide_True by (by right).
        -- rewrite decide_False; [done|]. by intros [?|?]%elem_of_cons.
Qed.

(** The dispatch loop over the key view of [self.state] when every
    key in range is known to the state manager and its connection
    works: each such key gets the payload, in order, and the loop
    returns the session ids. *)
Lemma dispatch_loop_live i payload g keys : ∀ dispatched out,
  (∀ k, k ∈ keys → _is_in g i k = true →
     ∃ st, fetch_raw E k = Some st
           ∧ ws_dispatch E st "GUILD_MEMBER_LIST_UPDATE" payload = Ok tt) →
  dispatch_loop E (Some (i, length (state g))) keys payload dispatched g out
  = (Ok (dispatched
         ++ omap (λ k, session_id <$> fetch_raw E k)
              (filter (λ k, _is_in g i k = true) keys)),
     g,
     out ++ ((λ k, (k, "GUILD_MEMBER_LIST_UPDATE", payload))
               <$> filter (λ k, _is_in g i k = true) keys)).
Proof.
  induction keys as [|k keys IH]; intros dispatched out Hlive; simpl; proc_unfold;
    rewrite Nat.eqb_refl; simpl.
  { by rewrite !app_nil_r. }
  destruct (_is_in g i k) eqn:Hin; simpl.
  - destruct (Hlive k) as (st & Hst & Hws); [by left|done|].
    rewrite filter_cons_True by done. csimpl.
    unfold get_state. rewrite Hst. proc_unfold. rewrite Hws.
    rewrite IH by (intros k' Hk'; apply Hlive; by right).
    by rewrite <- !app_assoc.
  - rewrite filter_cons_False by (by rewrite Hin).
    apply IH. intros k' Hk'. apply Hlive. by right.
Qed.

(** X9: a presence update on a ready list all of whose subscribed
    sessions are known to the state manager.  The subscriptions are left
    as they were.  If the user's item is found at a flat index, every
    session for which [_is_in] holds at that index is sent one event,
    in subscription order, whose only operation is the UPDATE of that
    index with the item stored there, and no other session is sent
    anything; if the user is not found, nothing is sent. *)
Theorem pres_update_fan_out uid partial_presence g out :
  ready (mlist g) →
  (∀ k, k ∈ (state g).*1 →
     ∃ st, fetch_raw E k = Some st
           ∧ ∀ p, ws_dispatch E st "GUILD_MEMBER_LIST_UPDATE" p = Ok tt) →
  ∃ g2 its,
    state g2 = state g ∧ ready (mlist g2) ∧ items g2 = Ok its
    ∧ match index_by_func (λ p, bool_decide (_get_id p = Some (py_str uid))) its with
      | Some (S n) =>
          ∃ item payload,
            its !! S n = Some item
            ∧ _get_id item = Some (py_str uid)
            ∧ payload_ops payload = [update_dict (S n) item]
            ∧ pres_update E uid partial_presence g out
              = (Ok (omap (λ k, session_id <$> fetch_raw E k)
                       (filter (λ k, _is_in g2 (S n) k = true) (state g2).*1)),
                 g2,
                 out ++ ((λ k, (k, "GUILD_MEMBER_LIST_UPDATE", payload))
                           <$> filter (λ k, _is_in g2 (S n) k = true) (state g2).*1))
      | _ => pres_update E uid partial_presence g out = (Ok [], g2, out)
      end.
Proof.
  intros (gs & gi & d & ov & Hl & Hd) Hlive.
  destruct g as [guild chan l st]. simpl in *. subst l.
  destruct (merge_presence_total (py_str uid) partial_presence gs d Hd)
    as (d2 & Hmerge & Hlen).
  set (g2 := mk guild chan
               (mkMemberList (Some (Info <$> gs)) (Some gi) (Some d2) (Some ov)) st).
  assert (Hready2 : ready (mlist g2)).
  { exists gs, gi, d2, ov. split; [done|]. intros gr Hgr.
    destruct (Hd gr Hgr) as [b Hb]. specialize (Hlen (gid gr)). rewrite Hb in Hlen.
    destruct (d2 !! gid gr); [by eexists|done]. }
  destruct (ready_items g2 Hready2) as (gps & gs' & _ & Hiter & _ & _ & Hits).
  exists g2, (concat (group_items <$> gps)). split_and!; [done..|].
  assert (Hstart :
    pres_update E uid partial_presence
      (mk guild chan (mkMemberList (Some (Info <$> gs)) (Some gi) (Some d) (Some ov)) st) out
    = Proc.bind (Proc.lift (items g2)) (λ its,
        let item_index :=
          index_by_func (λ p, bool_decide (_get_id p = Some (py_str uid))) its in
        if py_not_index item_index then Proc.ret []
        else
          let item_index := default 0%nat item_index in
          match its !! item_index with
          | None => Proc.raise KeyError
          | Some item =>
              _dispatch_sess E (SessionsInRange item_index)
                [mkOperation "UPDATE" (mkParams None None (Some item_index) (Some item))]
          end) g2 out).
  { unfold pres_update.
    erewrite bind_ok; last first.
    { unfold _init_check. proc_unfold. done. }
    unfold Proc.bind at 1. unfold Proc.get at 1. simpl.
    erewrite bind_ok; [|apply Hmerge]. done. }
  rewrite Hstart. clear Hstart.
  destruct (index_by_func _ (concat (group_items <$> gps))) as [[|n]|] eqn:Hidx.
  - proc_unfold. by rewrite Hits, Hidx.
  - destruct (index_by_func_Some _ _ _ Hidx) as (item & Hitem & Hmatch & _).
    apply bool_decide_eq_true in Hmatch.
    exists item, (mkPayload (list_id g2) (py_str (guild_id g2))
                    ((λ gp, (gid gp.1, length gp.2)) <$> gps) [update_dict (S n) item]).
    split_and!; [done..|].
    proc_unfold. rewrite Hits, Hidx. simpl. rewrite Hitem.
    unfold _dispatch_sess. proc_unfold. rewrite Hiter. simpl.
    apply (dispatch_loop_live (S n) _ g2 (st.*1) [] out).
    intros k Hk _. destruct (Hlive k Hk) as (st' & Hst' & Hws). by exists st'.
  - proc_unfold. by rewrite Hits, Hidx.
Qed.
End PresenceUpdate.

(** ** The dispatcher *)

Section Dispatcher.
Context (E : Env).

Lemma get_gml_new c lg out found :
  LazyGuildDispatcher.state lg !! c = None →
  storage_guild_from_channel E c = Ok found →
  LazyGuildDispatcher.get_gml E c lg out
  = (Ok c,
     LazyGuildDispatcher.mk
       (<[c := mk (guild_or_channel found c) c empty_list []]> (LazyGuildDispatcher.state lg))
       (<[guild_or_channel found c :=
            default [] (LazyGuildDispatcher.guild_map lg !! guild_or_channel found c) ++ [c]]>
          (LazyGuildDispatcher.guild_map lg)),
     out).
Proof.
  intros Hnone Hfound. unfold LazyGuildDispatcher.get_gml. proc_unfold.
  by rewrite Hnone, Hfound.
Qed.

Lemma registry_wf_new c lg found :
  registry_wf lg →
  LazyGuildDispatcher.state lg !! c = None →
  registry_wf
    (LazyGuildDispatcher.mk
       (<[c := mk (guild_or_channel found c) c empty_list []]> (LazyGuildDispatcher.state lg))
       (<[guild_or_channel found c :=
            default [] (LazyGuildDispatcher.guild_map lg !! guild_or_channel found c) ++ [c]]>
          (LazyGuildDispatcher.guild_map lg))).
Proof.
  intros (Hstore & Hlisted & Hnodup) Hnone.
  set (guild := guild_or_channel found c).
  split_and!; simpl.
  - intros c' g'. destruct (decide (c = c')) as [<-|Hne].
    + rewrite lookup_insert_eq. intros [= <-]. simpl. split; [done|].
      eexists. rewrite lookup_insert_eq. split; [done|].
      apply elem_of_app. right. by left.
    + rewrite lookup_insert_ne by done. intros Hg'.
      destruct (Hstore c' g' Hg') as (Hc' & chans & Hchans & Hin). split; [done|].
      destruct (decide (guild = guild_id g')) as [Heq|Hneq].
      * rewrite <- Heq in *. eexists. rewrite lookup_insert_eq. split; [done|].
        rewrite Hchans. simpl. apply elem_of_app. by left.
      * exists chans. by rewrite lookup_insert_ne.
  - intros guild' chans c'. destruct (decide (guild = guild')) as [<-|Hneq].
    + rewrite lookup_insert_eq. intros [= <-]. rewrite elem_of_app, list_elem_of_singleton.
      intros [Hin| ->].
      * destruct (LazyGuildDispatcher.guild_map lg !! guild) as [chans|] eqn:Hchans;
          simpl in Hin; [|by apply elem_of_nil in Hin].
        destruct (Hlisted guild chans c' Hchans Hin) as (g' & Hg' & Hguild).
        exists g'. split; [|done]. rewrite lookup_insert_ne; [done|]. congruence.
      * eexists. by rewrite lookup_insert_eq.
    + rewrite lookup_insert_ne by done. intros Hchans Hin.
      destruct (Hlisted guild' chans c' Hchans Hin) as (g' & Hg' & Hguild).
      exists g'. split; [|done]. rewrite lookup_insert_ne; [done|]. congruence.
  - intros guild' chans. destruct (decide (guild = guild')) as [<-|Hneq].
    + rewrite lookup_insert_eq. intros [= <-].
      destruct (LazyGuildDispatcher.guild_map lg !! guild) as [chans|] eqn:Hchans; simpl.
      * apply NoDup_app. split_and!.
        -- by eapply Hnodup.
        -- intros c' Hin ->%list_elem_of_singleton.
           destruct (Hlisted guild chans c Hchans Hin) as (g' & Hg' & _). congruence.
        -- apply NoDup_singleton.
      * apply NoDup_singleton.
    + rewrite lookup_insert_ne by done. apply Hnodup.
Qed.

(** What one call of [get_gml] does, for a channel stored or not. *)
Lemma get_gml_outcome c lg out found :
  registry_wf lg →
  storage_guild_from_channel E c = Ok found →
  ∃ lg' g,
    LazyGuildDispatcher.get_gml E c lg out = (Ok c, lg', out)
    ∧ LazyGuildDispatcher.state lg' !! c = Some g
    ∧ (∀ old, LazyGuildDispatcher.state lg !! c = Some old → lg' = lg)
    ∧ (LazyGuildDispatcher.state lg !! c = None →
         g = mk (guild_or_channel found c) c empty_list []
         ∧ LazyGuildDispatcher.guild_map lg' !! guild_or_channel found c
           = Some (default [] (LazyGuildDispatcher.guild_map lg !! guild_or_channel found c)
                   ++ [c]))
    ∧ (∀ c', c' ≠ c →
         LazyGuildDispatcher.state lg' !! c' = LazyGuildDispatcher.state lg !! c')
    ∧ registry_wf lg'
    ∧ LazyGuildDispatcher.get_gml E c lg' out = (Ok c, lg', out).
Proof.
  intros Hwf Hfound.
  destruct (LazyGuildDispatcher.state lg !! c) as [old|] eqn:Hold.
  - exists lg, old. split_and!; try done.
    + by eapply get_gml_registered.
    + by eapply get_gml_registered.
  - eexists _, _. split_and!.
    + by apply get_gml_new.
    + simpl. by rewrite lookup_insert_eq.
    + done.
    + intros _. split; [done|]. simpl. by rewrite lookup_insert_eq.
    + intros c' Hne. simpl. by rewrite lookup_insert_ne.
    + by apply registry_wf_new.
    + eapply get_gml_registered. simpl. by rewrite lookup_insert_eq.
Qed.

(** X10: [get_gml] makes the member list of a channel once.  A channel
    already stored is returned with the dispatcher untouched and the
    storage not asked.  Otherwise the new list is empty, has no
    subscriber, belongs to the guild the storage found (to the channel
    id itself when it found none, or 0), is appended to that guild's
    channels, and no other entry changes.  Either way the dispatcher's
    two dictionaries still agree, and asking again changes nothing. *)
Theorem get_gml_once c lg out found :
  registry_wf lg →
  storage_guild_from_channel E c = Ok found →
  ∃ lg' g,
    LazyGuildDispatcher.get_gml E c lg out = (Ok c, lg', out)
    ∧ LazyGuildDispatcher.state lg' !! c = Some g
    ∧ (∀ old, LazyGuildDispatcher.state lg !! c = Some old → lg' = lg)
    ∧ (LazyGuildDispatcher.state lg !! c = None →
         g = mk (guild_or_channel found c) c empty_list []
         ∧ LazyGuildDispatcher.guild_map lg' !! guild_or_channel found c
           = Some (default [] (LazyGuildDispatcher.guild_map lg !! guild_or_channel found c)
                   ++ [c]))
    ∧ (∀ c', c' ≠ c →
         LazyGuildDispatcher.state lg' !! c' = LazyGuildDispatcher.state lg !! c')
    ∧ registry_wf lg'
    ∧ LazyGuildDispatcher.get_gml E c lg' out = (Ok c, lg', out).
Proof.
  intros Hwf Hfound.
  destruct (LazyGuildDispatcher.state lg !! c) as [old|] eqn:Hold.
  - exists lg, old. split_and!; try done.
    + by eapply get_gml_registered.
    + by eapply get_gml_registered.
  - eexists _, _. split_and!.
    + by apply get_gml_new.
    + simpl. by rewrite lookup_insert_eq.
    + done.
    + intros _. split; [done|]. simpl. by rewrite lookup_insert_eq.
    + intros c' Hne. simpl. by rewrite lookup_insert_ne.
    + by apply registry_wf_new.
    + eapply get_gml_registered. simpl. by rewrite lookup_insert_eq.
Qed.

(** X11: under that agreement [get_gml_guild] returns, in the order
    they were created, the member lists of the guild and only those:
    no entry is missing ([None]), each belongs to the guild, and every
    stored list of the guild is among them.  The lists themselves are
    not touched. *)
Theorem get_gml_guild_complete guild lg out :
  registry_wf lg →
  ∃ lg' stores,
    LazyGuildDispatcher.get_gml_guild guild lg out = (Ok (Some <$> stores), lg', out)
    ∧ LazyGuildDispatcher.state lg' = LazyGuildDispatcher.state lg
    ∧ (∀ g, g ∈ stores ↔
         LazyGuildDispatcher.state lg !! channel_id g = Some g ∧ guild_id g = guild)
    ∧ NoDup (channel_id <$> stores)
    ∧ registry_wf lg'.
Proof.
  intros (Hstore & Hlisted & Hnodup).
  unfold LazyGuildDispatcher.get_gml_guild. proc_unfold.
  set (chans := default [] (LazyGuildDispatcher.guild_map lg !! guild)).
  assert (Hchans : ∀ c, c ∈ chans →
            ∃ g, LazyGuildDispatcher.state lg !! c = Some g ∧ guild_id g = guild).
  { intros c Hc. unfold chans in Hc.
    destruct (LazyGuildDispatcher.guild_map lg !! guild) as [l|] eqn:Hl; simpl in Hc.
    - by eapply Hlisted.
    - by apply elem_of_nil in Hc. }
  assert (Hnd : NoDup chans).
  { unfold chans. destruct (LazyGuildDispatcher.guild_map lg !! guild) as [l|] eqn:Hl; simpl.
    - by eapply Hnodup.
    - constructor. }
  assert (∃ stores,
    (λ c, LazyGuildDispatcher.state lg !! c) <$> chans = Some <$> stores
    ∧ channel_id <$> stores = chans
    ∧ ∀ g, g ∈ stores → LazyGuildDispatcher.state lg !! channel_id g = Some g
                         ∧ guild_id g = guild)
    as (stores & Hmap & Hids & Hall).
  { clear Hnd. induction chans as [|c chans IH].
    - exists []. split_and!; [done..|]. by intros g ?%elem_of_nil.
    - destruct IH as (stores & Hmap & Hids & Hall).
      { intros c' Hc'. apply Hchans. by right. }
      destruct (Hchans c) as (g & Hg & Hguild); [by left|].
      exists (g :: stores). csimpl. rewrite Hg, Hmap, Hids.
      destruct (Hstore c g Hg) as [Hc _]. rewrite Hc. split_and!; [done..|].
      intros g' [->|Hin]%elem_of_cons; [by rewrite Hc|by apply Hall]. }
  eexists _, stores. split_and!.
  - by rewrite Hmap.
  - done.
  - intros g. split; [apply Hall|]. intros [Hg Hguild].
    destruct (Hstore _ g Hg) as (_ & l & Hl & Hin).
    assert (channel_id g ∈ chans) as Hc.
    { unfold chans. by rewrite <- Hguild, Hl. }
    rewrite <- Hids in Hc. apply list_elem_of_fmap in Hc as (g' & Hc' & Hg').
    destruct (Hall g' Hg') as [Hg'' _]. rewrite <- Hc' in Hg''. congruence.
  - by rewrite Hids.
  - split_and!; simpl.
    + intros c g Hg. destruct (Hstore c g Hg) as (Hc & l & Hl & Hin). split; [done|].
      destruct (decide (guild = guild_id g)) as [Heq|Hne].
      * rewrite <- Heq in *. eexists. rewrite lookup_insert_eq. split; [done|].
        unfold chans. by rewrite Hl.
      * exists l. by rewrite lookup_insert_ne.
    + intros guild' l c. destruct (decide (guild = guild')) as [<-|Hne].
      * rewrite lookup_insert_eq. intros [= <-]. apply Hchans.
      * rewrite lookup_insert_ne by done. apply Hlisted.
    + intros guild' l. destruct (decide (guild = guild')) as [<-|Hne].
      * rewrite lookup_insert_eq. by intros [= <-].
      * rewrite lookup_insert_ne by done. apply Hnodup.
Qed.

(** X12: the dispatcher's [unsub] on any channel whose guild lookup
    answers.  It returns, sends nothing, and leaves the channel with a
    member list in which the session has no entry; a channel that had no
    member list gets an empty one on the way.  The two dictionaries still
    agree afterwards. *)
Theorem dispatcher_unsub_any_channel c sid lg out found :
  registry_wf lg →
  storage_guild_from_channel E c = Ok found →
  ∃ lg' g',
    LazyGuildDispatcher.unsub E c sid lg out = (Ok tt, lg', out)
    ∧ LazyGuildDispatcher.state lg' !! c = Some g'
    ∧ state_get sid (state g') = None
    ∧ (LazyGuildDispatcher.state lg !! c = None →
         g' = mk (guild_or_channel found c) c empty_list [])
    ∧ (∀ c', c' ≠ c →
         LazyGuildDispatcher.state lg' !! c' = LazyGuildDispatcher.state lg !! c')
    ∧ registry_wf lg'.
Proof.
  intros Hwf Hfound.
  destruct (get_gml_outcome c lg out found Hwf Hfound)
    as (lg1 & g & Hget & Hg & Hsame & Hnew & Hother & Hwf1 & _).
  set (g' := match state_pop sid (state g) with
             | [] => mk (guild_id g) (channel_id g) empty_list []
             | _ :: _ => set_state (state_pop sid) g
             end).
  exists (LazyGuildDispatcher.mk (<[c := g']> (LazyGuildDispatcher.state lg1))
            (LazyGuildDispatcher.guild_map lg1)), g'.
  assert (Hids : guild_id g' = guild_id g ∧ channel_id g' = channel_id g).
  { unfold g'. by destruct (state_pop sid (state g)). }
  split_and!.
  - unfold LazyGuildDispatcher.unsub. erewrite bind_ok; [|exact Hget].
    apply (on_gml_eq c _ lg1 out g); [done|]. apply unsub_eq.
  - simpl. by rewrite lookup_insert_eq.
  - unfold g'. destruct (state_pop sid (state g)) eqn:Hpop; simpl; [done|].
    by rewrite Hpop, <- Hpop, state_get_pop, decide_True.
  - intros Hnone. destruct (Hnew Hnone) as [-> _]. done.
  - intros c' Hne. simpl. rewrite lookup_insert_ne by done. by apply Hother.
  - destruct Hwf1 as (Hstore & Hlisted & Hnodup). destruct Hids as [Hgi Hci].
    split_and!; simpl.
    + intros c' g''. destruct (decide (c = c')) as [<-|Hne].
      * rewrite lookup_insert_eq. intros [= <-]. rewrite Hgi, Hci. by apply Hstore.
      * rewrite lookup_insert_ne by done. apply Hstore.
    + intros guild chans c' Hchans Hin.
      destruct (Hlisted guild chans c' Hchans Hin) as (g'' & Hg'' & Hguild).
      destruct (decide (c = c')) as [<-|Hne].
      * exists g'. rewrite lookup_insert_eq. split; [done|]. congruence.
      * exists g''. by rewrite lookup_insert_ne.
    + apply Hnodup.
Qed.
End Dispatcher.

(** ** Redirection to the 'everyone' list *)

Lemma py_str_not_everyone n : py_str n ≠ "everyone".
Proof.
  unfold py_str. destruct (Z.to_int n) as [d|d]; simpl; [|done].
  by destruct d.
Qed.

Lemma list_id_everyone g : list_id g = "everyone" ↔ channel_id g = guild_id g.
Proof.
  unfold list_id. case_bool_decide as Hsame; [done|].
  split; [|done]. intros Hstr. by apply py_str_not_everyone in Hstr.
Qed.

Section Redirect.
Context (E : Env).

(** X13: a range query on a channel that everyone may read, when the
    channel is not the guild's own.  Two levels of recursion are enough:
    the query is answered by the member list stored under the guild id
    (made on the spot if need be), provided that list is the guild's
    'everyone' list, and the channel's own member list comes out as it
    went in: it is not built and records nothing. *)
Theorem shard_query_redirect fuel chan sid ranges lg out g perms found perms' :
  registry_wf lg →
  LazyGuildDispatcher.state lg !! chan = Some g →
  channel_id g ≠ guild_id g →
  role_permissions E (guild_id g) (guild_id g) (channel_id g) = Ok perms →
  read_messages E perms = true →
  storage_guild_from_channel E (guild_id g) = Ok found →
  match LazyGuildDispatcher.state lg !! guild_id g with
  | Some ge => guild_id ge = guild_id g
  | None => guild_or_channel found (guild_id g) = guild_id g
  end →
  role_permissions E (guild_id g) (guild_id g) (guild_id g) = Ok perms' →
  ∃ lg1 ge,
    LazyGuildDispatcher.get_gml E (guild_id g) lg out = (Ok (guild_id g), lg1, out)
    ∧ LazyGuildDispatcher.state lg1 !! guild_id g = Some ge
    ∧ list_id ge = "everyone"
    ∧ LazyGuildDispatcher.shard_query E (S (S fuel)) chan sid ranges lg out
      = LazyGuildDispatcher.on_gml (guild_id g) (shard_query_here E sid ranges) lg1 out
    ∧ ∀ r lg' out',
        LazyGuildDispatcher.shard_query E (S (S fuel)) chan sid ranges lg out = (r, lg', out') →
        LazyGuildDispatcher.state lg' !! chan = Some g.
Proof.
  intros Hwf Hg Hnot Hperm Hread Hfound Hevery Hperm'.
  destruct (get_gml_outcome E (guild_id g) lg out found Hwf Hfound)
    as (lg1 & ge & Hget & Hge & Hsame & Hnew & Hother & Hwf1 & _).
  assert (Hchan : channel_id g = chan) by (by apply Hwf in Hg as [? _]).
  assert (Hids : guild_id ge = guild_id g ∧ channel_id ge = guild_id g).
  { destruct (LazyGuildDispatcher.state lg !! guild_id g) as [old|] eqn:Hold.
    - rewrite (Hsame old eq_refl) in Hge. rewrite Hold in Hge. injection Hge as <-.
      split; [done|]. by apply Hwf in Hold as [? _].
    - destruct (Hnew eq_refl) as [-> _]. simpl. by rewrite Hevery. }
  destruct Hids as [Hgi Hci].
  assert (Hlist : list_id ge = "everyone") by (apply list_id_everyone; congruence).
  assert (Hrun : LazyGuildDispatcher.shard_query E (S (S fuel)) chan sid ranges lg out
                 = LazyGuildDispatcher.on_gml (guild_id g) (shard_query_here E sid ranges)
                     lg1 out).
  { cbn [LazyGuildDispatcher.shard_query]. proc_unfold. rewrite Hg, Hperm, Hread.
    assert (String.eqb (list_id g) "everyone" = false) as ->.
    { apply String.eqb_neq. rewrite list_id_everyone. congruence. }
    simpl. rewrite Hget. rewrite Hge, Hgi, Hci, Hperm', Hlist. simpl.
    by rewrite andb_false_r. }
  exists lg1, ge. split_and!; [done..|].
  intros r lg' out'. rewrite Hrun. unfold LazyGuildDispatcher.on_gml. rewrite Hge.
  destruct (shard_query_here E sid ranges ge out) as [[r0 ge'] out0].
  intros [= <- <- <-]. simpl.
  rewrite lookup_insert_ne by congruence.
  rewrite Hother by congruence. done.
Qed.
End Redirect.

(** ** Addresses in the flat sequence *)

Lemma group_items_lookup (gps : list (GroupInfo * list Presence)) j gp :
  gps !! j = Some gp →
  let offset := sum_list_with (λ gp, S (length gp.2)) (take j gps) in
  concat (group_items <$> gps) !! offset = Some (GroupItem (gid gp.1) (length gp.2))
  ∧ ∀ n p, gp.2 !! n = Some p →
      concat (group_items <$> gps) !! (offset + 1 + n)%nat = Some (MemberItem p).
Proof.
  revert j. induction gps as [|gp0 gps IH]; intros j Hj; [done|].
  destruct j as [|j]; simpl in Hj.
  - injection Hj as ->. simpl. split; [done|].
    intros n p Hp. rewrite lookup_app_l.
    + by rewrite list_lookup_fmap, Hp.
    + rewrite length_fmap. by eapply lookup_lt_Some.
  - destruct (IH j Hj) as [Hhead Hmem]. csimpl. split.
    + rewrite lookup_app_r; rewrite length_fmap; [|lia].
      replace (_ - _)%nat with
        (sum_list_with (λ gp, S (length gp.2)) (take j gps)) by lia.
      exact Hhead.
    + intros n p Hp. rewrite lookup_app_r; rewrite length_fmap; [|lia].
      replace (_ - _)%nat with
        (sum_list_with (λ gp, S (length gp.2)) (take j gps) + 1 + n)%nat by lia.
      by apply Hmem.
Qed.

(** X14: where things are in the flat sequence of a ready list.  The
    header of the j-th group stands at the sum of [1 + len(bucket)] over
    the groups before it and carries the bucket's length; the n-th
    member of that group stands [1 + n] places further. *)
Theorem flat_index_addresses g j gp gps :
  ready (mlist g) →
  list_iter (mlist g) = Ok gps →
  gps !! j = Some gp →
  ∃ its,
    items g = Ok its
    ∧ let offset := sum_list_with (λ gp, S (length gp.2)) (take j gps) in
      its !! offset = Some (GroupItem (gid gp.1) (length gp.2))
      ∧ ∀ n p, gp.2 !! n = Some p → its !! (offset + 1 + n)%nat = Some (MemberItem p).
Proof.
  intros Hready Hiter Hj.
  destruct (ready_items g Hready) as (gps' & gs & _ & Hiter' & _ & _ & Hits).
  rewrite Hiter in Hiter'. injection Hiter' as <-.
  eexists. split; [exact Hits|]. by apply group_items_lookup.
Qed.

(** ** Choosing a role group *)

Lemma first_entitled_Info gs member_roles :
  (∃ pre gr post,
     gs = pre ++ gr :: post
     ∧ first_entitled (Info <$> gs) member_roles = Ok (Some (gid gr))
     ∧ gid_in_roles (gid gr) member_roles = true
     ∧ ∀ x, x ∈ pre → gid_in_roles (gid x) member_roles = false)
  ∨ (first_entitled (Info <$> gs) member_roles = Ok None
     ∧ ∀ x, x ∈ gs → gid_in_roles (gid x) member_roles = false).
Proof.
  induction gs as [|gr gs IH]; csimpl.
  { right. split; [done|]. by intros x ?%elem_of_nil. }
  destruct (gid_in_roles (gid gr) member_roles) eqn:Hin.
  - left. exists [], gr, gs. split_and!; [done..|]. by intros x ?%elem_of_nil.
  - destruct IH as [(pre & gr' & post & -> & Hrun & Hgr' & Hpre)|[Hrun Hall]].
    + left. exists (gr :: pre), gr', post. split_and!; [done..|].
      intros x [->|Hx]%elem_of_cons; [done|by apply Hpre].
    + right. split; [done|]. intros x [->|Hx]%elem_of_cons; [done|by apply Hall].
Qed.

(** X15: [_calc_member_group] on a group list made of [GroupInfo]
    objects.  It returns, without touching anything, the id of the
    first group in list order that is one of the member's roles; when
    the member has none of them it returns 'offline' for the status
    'offline' and 'online' for any other. *)
Theorem _calc_member_group_first member_roles st gs gi ci GI D OV ss out :
  ∃ group_id,
    _calc_member_group member_roles st
      (mk gi ci (mkMemberList (Some (Info <$> gs)) GI D OV) ss) out
    = (Ok group_id, mk gi ci (mkMemberList (Some (Info <$> gs)) GI D OV) ss, out)
    ∧ ((∃ pre gr post,
          gs = pre ++ gr :: post ∧ group_id = gid gr
          ∧ (∃ n, gid gr = RoleId n ∧ n ∈ member_roles)
          ∧ ∀ x, x ∈ pre → ∀ n, gid x = RoleId n → n ∉ member_roles)
       ∨ ((∀ x, x ∈ gs → ∀ n, gid x = RoleId n → n ∉ member_roles)
          ∧ group_id = if String.eqb st "offline"
                       then SimpleGroup "offline" else SimpleGroup "online")).
Proof.
  assert (Hno : ∀ x : GroupInfo, gid_in_roles (gid x) member_roles = false →
            ∀ n, gid x = RoleId n → n ∉ member_roles).
  { intros x Hx n Hn. rewrite Hn in Hx. simpl in Hx. by apply bool_decide_eq_false in Hx. }
  rewrite _calc_member_group_eq.
  destruct (first_entitled_Info gs member_roles)
    as [(pre & gr & post & -> & -> & Hgr & Hpre)|[-> Hall]].
  - eexists. split; [done|]. left. exists pre, gr, post. split_and!; [done..| |].
    + destruct (gid gr) as [n|s]; simpl in Hgr; [|done].
      exists n. split; [done|]. by apply bool_decide_eq_true in Hgr.
    + intros x Hx. by apply Hno, Hpre.
  - eexists. split; [done|]. right. split; [|done].
    intros x Hx. by apply Hno, Hall.
Qed.

(** ** The further properties at sample inputs *)

Lemma sample_store_ready subscriptions : ready (mlist (Sample.store subscriptions)).
Proof.
  exists [online_group; offline_group], ∅, Sample.buckets, ∅. split; [done|].
  intros gr Hgr. apply list_elem_of_In in Hgr. destruct Hgr as [<-|[<-|[]]]; by eexists.
Qed.

Lemma sample_bucket_members k bucket p :
  Sample.buckets !! k = Some bucket → p ∈ bucket →
  p = Scenario.bob ∨ p = Scenario.carl ∨ p = Scenario.alice.
Proof.
  unfold Sample.buckets. rewrite lookup_insert. case_decide.
  { intros [= <-] ->%list_elem_of_singleton. by left. }
  rewrite lookup_insert. case_decide; [|by rewrite lookup_empty].
  intros [= <-] [-> | ->%list_elem_of_singleton]%elem_of_cons; auto.
Qed.

Lemma scenario_registry_wf : registry_wf Scenario.registry.
Proof.
  split_and!; simpl.
  - intros c g [<- <-]%lookup_singleton_Some. split; [done|].
    exists [20]. split; [done|]. by left.
  - intros guild chans c [<- <-]%lookup_singleton_Some ->%list_elem_of_singleton.
    by exists Scenario.fresh.
  - intros guild chans [<- <-]%lookup_singleton_Some. apply NoDup_singleton.
Qed.


Lemma unsub_keeps_other_sessions_witness :
  let g := Sample.store [("s1", {[ (0, 5) ]}); ("s2", {[ (1, 2) ]})] in
  ∃ g',
    unsub "s1" g [] = (Ok tt, g', [])
    ∧ mlist g' = mlist g
    ∧ state_get "s1" (state g') = None
    ∧ ∀ s, s ≠ "s1" → state_get s (state g') = state_get s (state g).
Proof.
  intros g.
  apply (unsub_keeps_other_sessions "s1" "s2" {[ (1, 2) ]} g []).
  - discriminate.
  - reflexivity.
Defined.

Lemma stale_session_query_witness :
  let g1 := (_init_check Sample.ghost Scenario.fresh []).1.2 in
  ∃ g2,
    shard_query_here Sample.ghost "ghost" [(0, 5)] Scenario.fresh [] = (Ok tt, g2, [])
    ∧ state g2 = state_pop "ghost" (state Scenario.fresh)
    ∧ state_get "ghost" (state g2) = None
    ∧ mlist g2 = match state_pop "ghost" (state Scenario.fresh) with
                 | [] => empty_list
                 | _ :: _ => mlist g1
                 end.
Proof.
  intros g1.
  apply (stale_session_query Sample.ghost "ghost" [(0, 5)] Scenario.fresh [] g1 []).
  - intros Hb. vm_compute in Hb. discriminate.
  - vm_compute. reflexivity.
  - reflexivity.
Defined.

Lemma _init_check_idempotent_witness :
  let g1 := (_init_check Scenario.plain Scenario.fresh []).1.2 in
  _init_check Scenario.plain g1 [] = (Ok tt, g1, [])
  ∧ sub Scenario.plain "s1" g1 [] = (Ok tt, g1, [])
  ∧ list_bool (mlist g1) = true.
Proof.
  intros g1.
  apply (_init_check_idempotent Scenario.plain "s1" Scenario.fresh [] g1 []).
  vm_compute. reflexivity.
Defined.

Lemma methods_keep_list_inv_witness :
  (∀ r g' out', _init_check Scenario.hoisted Scenario.fresh [] = (r, g', out') →
     list_inv (mlist g'))
  ∧ (∀ sid r g' out', unsub sid Scenario.fresh [] = (r, g', out') → list_inv (mlist g'))
  ∧ (∀ sid ranges r g' out',
       shard_query_here Scenario.hoisted sid ranges Scenario.fresh [] = (r, g', out') →
       list_inv (mlist g'))
  ∧ (∀ uid partial_presence r g' out',
       pres_update Scenario.hoisted uid partial_presence Scenario.fresh [] = (r, g', out') →
       list_inv (mlist g')).
Proof.
  apply (methods_keep_list_inv Scenario.hoisted Scenario.fresh []).
  left. reflexivity.
Defined.

Lemma pres_update_unknown_user_witness :
  pres_update Scenario.plain 99 (mkPartial None None (Some "dnd") ∅)
    (Sample.store [("s1", {[ (0, 5) ]})]) []
  = (Ok [], Sample.store [("s1", {[ (0, 5) ]})], []).
Proof.
  apply (pres_update_unknown_user Scenario.plain 99).
  - apply sample_store_ready.
  - intros d k bucket p [= <-] Hk Hp.
    destruct (sample_bucket_members k bucket p Hk Hp) as [-> | [-> | ->]];
      intros Heq; vm_compute in Heq; discriminate.
Defined.

Lemma merge_presence_law_witness :
  ∃ d2,
    (∀ G GI OV gi ci st out,
       merge_presence "1" (mkPartial None None (Some "dnd") ∅)
         (Info <$> [online_group; offline_group])
         (mk gi ci (mkMemberList G GI (Some Sample.buckets) OV) st) out
       = (Ok tt, mk gi ci (mkMemberList G GI (Some d2) OV) st, out))
    ∧ ∀ k, d2 !! k = if decide (k ∈ gid <$> [online_group; offline_group])
                     then merge_bucket "1" (mkPartial None None (Some "dnd") ∅)
                            <$> Sample.buckets !! k
                     else Sample.buckets !! k.
Proof.
  apply (merge_presence_law "1" (mkPartial None None (Some "dnd") ∅)
           [online_group; offline_group] Sample.buckets).
  - apply NoDup_cons. split; [|apply NoDup_singleton].
    intros Hin%list_elem_of_singleton. discriminate.
  - intros gr Hgr. apply list_elem_of_In in Hgr. destruct Hgr as [<-|[<-|[]]]; by eexists.
Defined.

Lemma pres_update_fan_out_witness :
  let g := Sample.store [("s1", {[ (0, 1) ]}); ("s2", {[ (2, 5) ]})] in
  let partial_presence := mkPartial None None (Some "dnd") ∅ in
  ∃ g2 its,
    state g2 = state g ∧ ready (mlist g2) ∧ items g2 = Ok its
    ∧ match index_by_func (λ p, bool_decide (_get_id p = Some (py_str 1))) its with
      | Some (S n) =>
          ∃ item payload,
            its !! S n = Some item
            ∧ _get_id item = Some (py_str 1)
            ∧ payload_ops payload = [update_dict (S n) item]
            ∧ pres_update Scenario.plain 1 partial_presence g []
              = (Ok (omap (λ k, session_id <$> fetch_raw Scenario.plain k)
                       (filter (λ k, _is_in g2 (S n) k = true) (state g2).*1)),
                 g2,
                 [] ++ ((λ k, (k, "GUILD_MEMBER_LIST_UPDATE", payload))
                          <$> filter (λ k, _is_in g2 (S n) k = true) (state g2).*1))
      | _ => pres_update Scenario.plain 1 partial_presence g [] = (Ok [], g2, [])
      end.
Proof.
  intros g partial_presence.
  apply (pres_update_fan_out Scenario.plain 1 partial_presence g []).
  - apply sample_store_ready.
  - intros k _. exists (mkSessState k). split; reflexivity.
Defined.

Lemma get_gml_once_witness :
  ∃ lg' g,
    LazyGuildDispatcher.get_gml Scenario.plain 30 Scenario.registry [] = (Ok 30, lg', [])
    ∧ LazyGuildDispatcher.state lg' !! 30 = Some g
    ∧ (∀ old, LazyGuildDispatcher.state Scenario.registry !! 30 = Some old →
         lg' = Scenario.registry)
    ∧ (LazyGuildDispatcher.state Scenario.registry !! 30 = None →
         g = mk (guild_or_channel (Some 10) 30) 30 empty_list []
         ∧ LazyGuildDispatcher.guild_map lg' !! guild_or_channel (Some 10) 30
           = Some (default []
                     (LazyGuildDispatcher.guild_map Scenario.registry
                        !! guild_or_channel (Some 10) 30)
                   ++ [30]))
    ∧ (∀ c', c' ≠ 30 →
         LazyGuildDispatcher.state lg' !! c' = LazyGuildDispatcher.state Scenario.registry !! c')
    ∧ registry_wf lg'
    ∧ LazyGuildDispatcher.get_gml Scenario.plain 30 lg' [] = (Ok 30, lg', []).
Proof.
  apply (get_gml_once Scenario.plain 30 Scenario.registry [] (Some 10)).
  - apply scenario_registry_wf.
  - reflexivity.
Defined.

Lemma get_gml_guild_complete_witness :
  ∃ lg' stores,
    LazyGuildDispatcher.get_gml_guild 10 Scenario.registry [] = (Ok (Some <$> stores), lg', [])
    ∧ LazyGuildDispatcher.state lg' = LazyGuildDispatcher.state Scenario.registry
    ∧ (∀ g, g ∈ stores ↔
         LazyGuildDispatcher.state Scenario.registry !! channel_id g = Some g
         ∧ guild_id g = 10)
    ∧ NoDup (channel_id <$> stores)
    ∧ registry_wf lg'.
Proof.
  apply (get_gml_guild_complete 10 Scenario.registry []).
  apply scenario_registry_wf.
Defined.

Lemma dispatcher_unsub_any_channel_witness :
  ∃ lg' g',
    LazyGuildDispatcher.unsub Scenario.plain 30 "s1" Scenario.registry [] = (Ok tt, lg', [])
    ∧ LazyGuildDispatcher.state lg' !! 30 = Some g'
    ∧ state_get "s1" (state g') = None
    ∧ (LazyGuildDispatcher.state Scenario.registry !! 30 = None →
         g' = mk (guild_or_channel (Some 10) 30) 30 empty_list [])
    ∧ (∀ c', c' ≠ 30 →
         LazyGuildDispatcher.state lg' !! c' = LazyGuildDispatcher.state Scenario.registry !! c')
    ∧ registry_wf lg'.
Proof.
  apply (dispatcher_unsub_any_channel Scenario.plain 30 "s1" Scenario.registry [] (Some 10)).
  - apply scenario_registry_wf.
  - reflexivity.
Defined.

Lemma shard_query_redirect_witness :
  ∃ lg1 ge,
    LazyGuildDispatcher.get_gml Sample.public (guild_id Scenario.fresh) Scenario.registry []
    = (Ok (guild_id Scenario.fresh), lg1, [])
    ∧ LazyGuildDispatcher.state lg1 !! guild_id Scenario.fresh = Some ge
    ∧ list_id ge = "everyone"
    ∧ LazyGuildDispatcher.shard_query Sample.public 2 20 "s1" [(0, 5)] Scenario.registry []
      = LazyGuildDispatcher.on_gml (guild_id Scenario.fresh)
          (shard_query_here Sample.public "s1" [(0, 5)]) lg1 []
    ∧ ∀ r lg' out',
        LazyGuildDispatcher.shard_query Sample.public 2 20 "s1" [(0, 5)] Scenario.registry []
        = (r, lg', out') →
        LazyGuildDispatcher.state lg' !! 20 = Some Scenario.fresh.
Proof.
  apply (shard_query_redirect Sample.public 0 20 "s1" [(0, 5)] Scenario.registry []
           Scenario.fresh 1024 (Some 10) 1024).
  - apply scenario_registry_wf.
  - reflexivity.
  - discriminate.
  - reflexivity.
  - reflexivity.
  - reflexivity.
  - reflexivity.
  - reflexivity.
Defined.

Lemma flat_index_addresses_witness :
  let g := Sample.store [] in
  let gp := (offline_group, [Scenario.bob]) in
  let gps := [(online_group, [Scenario.carl; Scenario.alice]); gp] in
  ∃ its,
    items g = Ok its
    ∧ let offset := sum_list_with (λ gp, S (length gp.2)) (take 1 gps) in
      its !! offset = Some (GroupItem (gid gp.1) (length gp.2))
      ∧ ∀ n p, gp.2 !! n = Some p → its !! (offset + 1 + n)%nat = Some (MemberItem p).
Proof.
  intros g gp gps.
  apply (flat_index_addresses g 1 gp gps).
  - apply sample_store_ready.
  - vm_compute. reflexivity.
  - reflexivity.
Defined.

(** ** The event that answers a range query *)

Lemma headers_members (ps : list Presence) : headers (MemberItem <$> ps) = [].
Proof. unfold headers. by induction ps. Qed.

Lemma headers_group_items (gps : list (GroupInfo * list Presence)) :
  headers (concat (group_items <$> gps)) = (λ gp, (gid gp.1, length gp.2)) <$> gps.
Proof.
  induction gps as [|gp gps IH]; [done|].
  csimpl. unfold headers in *. csimpl. rewrite omap_app.
  fold (headers (MemberItem <$> gp.2)). rewrite headers_members. simpl. by rewrite IH.
Qed.

Section QueryEvent.
Context (E : Env).

(** X16: the whole event that a range query sends to a live session.
    Its id is the list id ('everyone' for the guild's own list, else the
    channel id in decimal), its guild id is the guild id in decimal, its
    groups repeat the headers of the flat sequence (same ids, same
    counts, same order), and its operations are the SYNCs of the ranges
    that were not skipped. *)
Theorem shard_query_event sid ranges g out g1 out1 st :
  store_inv g →
  _init_check E g out = (Ok tt, g1, out1) →
  fetch_raw E sid = Some st →
  (∀ p, ws_dispatch E st "GUILD_MEMBER_LIST_UPDATE" p = Ok tt) →
  ∃ its g2,
    items g1 = Ok its
    ∧ shard_query_here E sid ranges g out
      = (Ok tt, g2,
         out ++ [(sid, "GUILD_MEMBER_LIST_UPDATE",
                  mkPayload
                    (if bool_decide (channel_id g = guild_id g)
                     then "everyone" else py_str (channel_id g))
                    (py_str (guild_id g))
                    (headers its)
                    (sync_dict its <$> filter valid_range ranges))]).
Proof.
  intros Hinv Hcheck Hst Hws.
  destruct (_init_check_ready E g out g1 out1 Hinv Hcheck) as (Hready & -> & _ & Hgi & Hci).
  destruct (ready_items g1 Hready) as (gps & gs & _ & Hiter & _ & _ & Hits).
  eexists _, _. split; [exact Hits|].
  unfold shard_query_here.
  erewrite bind_ok; [|exact Hcheck].
  erewrite bind_ok; [|by apply sync_ranges_spec].
  erewrite bind_ok; [|eapply _dispatch_sess_one; [exact Hiter|apply mapM_to_dict_sync|done..]].
  rewrite headers_group_items. unfold Proc.ret, list_id. simpl.
  by rewrite Hgi, Hci.
Qed.
End QueryEvent.

Lemma shard_query_event_witness :
  ∃ its g2,
    items (_init_check Scenario.plain Scenario.fresh []).1.2 = Ok its
    ∧ shard_query_here Scenario.plain "s1" [(0, 2); (5, 3)] Scenario.fresh []
      = (Ok tt, g2,
         [] ++ [("s1", "GUILD_MEMBER_LIST_UPDATE",
                 mkPayload
                   (if bool_decide (channel_id Scenario.fresh = guild_id Scenario.fresh)
                    then "everyone" else py_str (channel_id Scenario.fresh))
                   (py_str (guild_id Scenario.fresh))
                   (headers its)
                   (sync_dict its <$> filter valid_range [(0, 2); (5, 3)]))]).
Proof.
  apply (shard_query_event Scenario.plain "s1" [(0, 2); (5, 3)] Scenario.fresh []
           (_init_check Scenario.plain Scenario.fresh []).1.2 [] (mkSessState "s1")).
  - intros Hb. vm_compute in Hb. discriminate.
  - vm_compute. reflexivity.
  - reflexivity.
  - intros p. reflexivity.
Defined.

(** ** Order inside a bucket *)

(** X17: in a list that a build returned, every bucket is in
    ascending order of display name, the display name of a presence
    being the member's nickname when there is a non-empty one and the
    username otherwise; strings compare character by character. *)
Theorem bucket_display_order E g out g1 out1 members d k bucket :
  _init_member_list E g out = (Ok tt, g1, out1) →
  storage_get_member_data E (guild_id g) = Ok members →
  data (mlist g1) = Some d → d !! k = Some bucket →
  ∀ i p q, bucket !! i = Some p → bucket !! S i = Some q →
    String.ltb (display_name (nick_dict members) q) (display_name (nick_dict members) p)
    = false.
Proof.
  intros H Hmem Hd Hk.
  apply _init_member_list_ok in H
    as (ids & ps & ov & d0 & members' & _ & _ & Hmem' & _ & -> & _).
  rewrite Hmem in Hmem'. injection Hmem' as <-.
  simpl in Hd. injection Hd as <-.
  unfold sort_buckets in Hk. rewrite lookup_fmap in Hk.
  destruct (d0 !! k) as [l|]; [|done]. injection Hk as <-.
  pose proof (sort_by_sorted String.ltb (display_name (nick_dict members)) l
                string_ltb_asym) as Hsorted.
  unfold nick_dict in *.
  induction Hsorted as [|x l' Hs IH Hhd]; intros i p q Hp Hq; [done|].
  destruct i as [|i]; simpl in *.
  - injection Hp as <-. destruct Hhd as [|y l'' Hy]; [done|].
    simpl in Hq. by injection Hq as <-.
  - by eapply IH.
Qed.

Lemma bucket_display_order_witness :
  let members := [mkMember (mkUser "1" "alice") (Some "zed")] in
  String.ltb (display_name (nick_dict members) Scenario.alice)
    (display_name (nick_dict members) Scenario.carl)
  = false.
Proof.
  intros members.
  refine (bucket_display_order Scenario.plain Scenario.fresh []
           (_init_member_list Scenario.plain Scenario.fresh []).1.2 [] members
           (default ∅ (data (mlist (_init_member_list Scenario.plain Scenario.fresh []).1.2)))
           (SimpleGroup "online") [Scenario.carl; Scenario.alice]
           _ _ _ _ 0%nat Scenario.carl Scenario.alice _ _).
  - vm_compute. reflexivity.
  - reflexivity.
  - vm_compute. reflexivity.
  - vm_compute. reflexivity.
  - reflexivity.
  - reflexivity.
Defined.

(** * Failing builds, the order of groups, eviction *)

(** ** A build that fails at a member (C1) *)

Section BuildPrefix.
Context (E : Env).

(** [_pass_1] on the presences [pre ++ post], while the calls for
    [pre] answer: the gated presences of [pre] are appended to their
    buckets, in order, and the pass goes on with [post]. *)
Lemma _pass_1_prefix pre : ∀ post on off gi ci GI OV st out,
  Forall (gate_answers E ci) pre →
  _pass_1 E (pre ++ post)
    (mk gi ci (mkMemberList (Some [Info online_group; Info offline_group]) GI
       (Some (<[SimpleGroup "offline" := off]> (<[SimpleGroup "online" := on]> ∅))) OV) st)
    out
  = _pass_1 E post
      (mk gi ci (mkMemberList (Some [Info online_group; Info offline_group]) GI
         (Some (<[SimpleGroup "offline" :=
                    off ++ filter (λ p, passes_gate E ci p = true ∧ is_offline p = true) pre]>
                  (<[SimpleGroup "online" :=
                       on ++ filter (λ p, passes_gate E ci p = true ∧ is_offline p = false) pre]>
                     ∅))) OV) st)
      out.
Proof.
  induction pre as [|p pre IH]; intros post on off gi ci GI OV st out Hans.
  { simpl. by rewrite !app_nil_r. }
  apply Forall_cons in Hans as [(member_id & member_roles & perms & Hid & Hroles & Hperm) Hans].
  rewrite <- app_comm_cons, _pass_1_cons, Hid, Hroles. simpl. rewrite Hperm.
  assert (Hgate : passes_gate E ci p = read_messages E perms).
  { unfold passes_gate. by rewrite Hid, Hperm. }
  destruct (read_messages E perms) eqn:Hread.
  2: { rewrite IH by done.
       by rewrite !filter_cons_False by (rewrite Hgate; by intros [? _]). }
  unfold is_offline. destruct (String.eqb (status p) "offline") eqn:Hoff.
  - erewrite bind_ok; [|done].
    erewrite bind_ok; last first.
    { by rewrite data_append_eq, lookup_insert_eq. }
    rewrite insert_insert_eq, IH by done.
    rewrite filter_cons_True by (by rewrite Hgate, Hoff).
    rewrite filter_cons_False by (rewrite Hoff; by intros [_ ?]).
    by rewrite <- app_assoc.
  - erewrite bind_ok; last first.
    { by rewrite _calc_member_group_eq, first_entitled_synthetic. }
    simpl. unfold _to_simple_group. rewrite Hoff.
    erewrite bind_ok; last first.
    { rewrite data_append_eq, lookup_insert_ne, lookup_insert_eq by done. done. }
    rewrite (insert_insert_ne _ (SimpleGroup "online") (SimpleGroup "offline")) by done.
    rewrite insert_insert_eq, IH by done.
    rewrite filter_cons_False by (rewrite Hoff; by intros [_ ?]).
    rewrite filter_cons_True by (by rewrite Hgate, Hoff).
    by rewrite <- app_assoc.
Qed.

(** A build as far as [_pass_1], when the four fetches answer and no
    hoisted role may read the channel. *)
Lemma build_to_pass_1 g out ids ps rows ovs ov :
  storage_get_member_ids E (guild_id g) = Ok ids →
  presence_guild_presences E ids (guild_id g) = Ok ps →
  storage_fetch_roles E (guild_id g) = Ok rows →
  storage_chan_overwrites E (channel_id g) = Ok ovs →
  overwrites_by_id ∅ ovs = Ok ov →
  readable_hoisted E ov rows = [] →
  _init_member_list E g out
  = Proc.bind (_pass_1 E ps) (λ _, _sort_groups E)
      (mk (guild_id g) (channel_id g)
         (mkMemberList (Some [Info online_group; Info offline_group]) (Some ∅)
            (Some (<[SimpleGroup "offline" := []]> (<[SimpleGroup "online" := []]> ∅)))
            (Some ov))
         (state g))
      out.
Proof.
  intros Hids Hps Hrows Hovs Hov Hrg.
  rewrite _init_member_list_eq, Hids, Hps, set_groups_eq, get_roles_eq, Hrows, Hovs, Hov.
  simpl. rewrite Hrg. by destruct g.
Qed.
End BuildPrefix.

Lemma items_two_buckets gi ci GI OV st (on off : list Presence) :
  items (mk gi ci
           (mkMemberList (Some [Info online_group; Info offline_group]) (Some GI)
              (Some (<[SimpleGroup "offline" := off]> (<[SimpleGroup "online" := on]> ∅)))
              (Some OV)) st)
  = Ok (flat_two on off).
Proof.
  unfold items, list_iter. simpl.
  rewrite lookup_insert_ne, lookup_insert_eq by done. simpl.
  rewrite lookup_insert_eq. simpl. unfold flat_two. by rewrite app_nil_r.
Qed.

Section FailedBuild.
Context (E : Env).

(** C1 fails on the code.  A build in which the permission lookup for
    one member raises, after the lookups for the members [pre] before
    it answered: the error reaches the subscribing call, [sub] or
    [shard_query], nothing is recorded or sent, but nothing is undone
    either.  The groups, the overwrites and the buckets stay assigned,
    the buckets holding the members of [pre] that were placed, unsorted.
    The list counts as initialised, its flat sequence lacks the member
    whose lookup failed and every member after it, and no later
    readiness check builds again, whatever the collaborators answer by
    then. *)
Theorem failed_build_stays_initialised sid ranges g out ids pre p post rows ovs ov
    member_id member_roles e :
  list_bool (mlist g) = false →
  storage_get_member_ids E (guild_id g) = Ok ids →
  presence_guild_presences E ids (guild_id g) = Ok (pre ++ p :: post) →
  storage_fetch_roles E (guild_id g) = Ok rows →
  storage_chan_overwrites E (channel_id g) = Ok ovs →
  overwrites_by_id ∅ ovs = Ok ov →
  readable_hoisted E ov rows = [] →
  Forall (gate_answers E (channel_id g)) pre →
  py_int (user_id (user p)) = Ok member_id →
  result_mapM py_int (roles p) = Ok member_roles →
  get_permissions E member_id (channel_id g) = Err e →
  let stored :=
    mk (guild_id g) (channel_id g)
      (mkMemberList (Some [Info online_group; Info offline_group]) (Some ∅)
         (Some (placed E (channel_id g) pre)) (Some ov))
      (state g) in
  sub E sid g out = (Err e, stored, out)
  ∧ shard_query_here E sid ranges g out = (Err e, stored, out)
  ∧ list_bool (mlist stored) = true
  ∧ items stored
    = Ok (flat_two
            (filter (λ q, passes_gate E (channel_id g) q = true ∧ is_offline q = false) pre)
            (filter (λ q, passes_gate E (channel_id g) q = true ∧ is_offline q = true) pre))
  ∧ ∀ E' sid' out', sub E' sid' stored out' = (Ok tt, stored, out').
Proof.
  intros Hempty Hids Hps Hrows Hovs Hov Hrg Hans Hid Hroles Hperm stored.
  assert (Hbuild : _init_member_list E g out = (Err e, stored, out)).
  { rewrite (build_to_pass_1 E g out ids (pre ++ p :: post) rows ovs ov) by done.
    apply bind_err.
    rewrite (_pass_1_prefix E pre (p :: post) [] []) by done.
    rewrite _pass_1_cons, Hid, Hroles. simpl. by rewrite Hperm. }
  assert (Hcheck : _init_check E g out = (Err e, stored, out)).
  { unfold _init_check. proc_unfold. by rewrite Hempty. }
  split_and!.
  - exact Hcheck.
  - unfold shard_query_here. by erewrite bind_err.
  - done.
  - apply items_two_buckets.
  - done.
Qed.
End FailedBuild.

(** The guild of three in which the lookup for carl, the last presence
    fetched, fails.  A later range query, with collaborators that
    answer, is served the two members placed before the failure; a fresh
    build with those collaborators has all three. *)
Lemma failed_build_stays_initialised_witness :
  let stored :=
    mk 10 20
      (mkMemberList (Some [Info online_group; Info offline_group]) (Some ∅)
         (Some (placed Scenario.gate_fails 20 [Scenario.bob; Scenario.alice])) (Some ∅))
      [] in
  (sub Scenario.gate_fails "s1" Scenario.fresh []
   = (Err (CollaboratorError "get_permissions"), stored, [])
   ∧ shard_query_here Scenario.gate_fails "s1" [(0, 5)] Scenario.fresh []
     = (Err (CollaboratorError "get_permissions"), stored, [])
   ∧ list_bool (mlist stored) = true
   ∧ items stored
     = Ok (flat_two
             (filter (λ q, passes_gate Scenario.gate_fails 20 q = true ∧ is_offline q = false)
                [Scenario.bob; Scenario.alice])
             (filter (λ q, passes_gate Scenario.gate_fails 20 q = true ∧ is_offline q = true)
                [Scenario.bob; Scenario.alice]))
   ∧ ∀ E' sid' out', sub E' sid' stored out' = (Ok tt, stored, out'))
  ∧ items stored
    = Ok [GroupItem (SimpleGroup "online") 1; MemberItem Scenario.alice;
          GroupItem (SimpleGroup "offline") 1; MemberItem Scenario.bob]
  ∧ (λ ev : Sent, (ev.1.1, payload_ops ev.2))
      <$> (shard_query_here Scenario.plain "s2" [(0, 9)] stored []).2
    = [("s2",
        [mkOpDict "SYNC"
           (Some [GroupItem (SimpleGroup "online") 1; MemberItem Scenario.alice;
                  GroupItem (SimpleGroup "offline") 1; MemberItem Scenario.bob])
           (Some (0, 9)) None None])]
  ∧ items (sub Scenario.plain "s2" Scenario.fresh []).1.2
    = Ok [GroupItem (SimpleGroup "online") 2; MemberItem Scenario.carl;
          MemberItem Scenario.alice;
          GroupItem (SimpleGroup "offline") 1; MemberItem Scenario.bob].
Proof.
  intros stored. split; [|split; [|split]].
  - apply (failed_build_stays_initialised Scenario.gate_fails "s1" [(0, 5)] Scenario.fresh []
             [2; 1; 3] [Scenario.bob; Scenario.alice] Scenario.carl [] [] [] ∅ 3 [7]
             (CollaboratorError "get_permissions")).
    + reflexivity.
    + reflexivity.
    + reflexivity.
    + reflexivity.
    + reflexivity.
    + reflexivity.
    + reflexivity.
    + repeat constructor.
      * by exists 2, [], 1024.
      * by exists 1, [], 1024.
    + reflexivity.
    + reflexivity.
    + reflexivity.
  - vm_compute. reflexivity.
  - vm_compute. reflexivity.
  - vm_compute. reflexivity.
Defined.

(** ** The order of groups and of members (C6) *)

Section GroupOrder.
Context (E : Env).





End GroupOrder.


(** ** Eviction and rebuild (C9) *)

Section Rebuild.
Context (E : Env).


End Rebuild.


